(** * Roofline reporter (profile.cu): embedding and verified properties

    The program reads static device attributes and evaluates three
    closed-form estimators in C++ [int] and [double] arithmetic.

    - [int] is modelled as [Z] with the 32-bit two's-complement wrap-around
      written out ([wrap32]) at every [int] multiplication.  Signed overflow
      is undefined behaviour in C++; the model gives it the result of the
      32-bit multiply instruction the compiled program executes.
    - [double] is modelled as IEEE-754 binary64 through the Standard
      Library's executable specification [SpecFloat] ([prec = 53],
      [emax = 1024]); every double operation of the source is the
      corresponding [SF*] operation, with round-to-nearest-even.
    - the output streams are modelled as the list of the strings written by
      each output statement, in order. *)

From Stdlib Require Import ZArith Lia Bool List String Ascii QArith Qabs.
From Stdlib Require Import SpecFloat.
Import ListNotations.
Local Open Scope Z_scope.

(** ** C++ [int] *)

Definition INT_MIN : Z := - 2 ^ 31.
Definition INT_MAX : Z := 2 ^ 31 - 1.

Definition in_int (z : Z) : Prop := INT_MIN <= z <= INT_MAX.

(** Result of a 32-bit signed operation whose mathematical value is [z]. *)
Definition wrap32 (z : Z) : Z := (z + 2 ^ 31) mod 2 ^ 32 - 2 ^ 31.

Definition int_mul (a b : Z) : Z := wrap32 (a * b).

(** ** C++ [double] *)

Definition prec : Z := 53.
Definition emax : Z := 1024.

Definition double : Type := spec_float.

(** Exponent of the smallest positive double, [2 ^ -1074]. *)
Definition d_emin : Z := emin prec emax.

Definition dmul : double -> double -> double := SFmul prec emax.
Definition ddiv : double -> double -> double := SFdiv prec emax.
Definition dlt : double -> double -> bool := SFltb.

(** The double nearest to an integer (ties to even).  It is exact below
    [2 ^ 53], hence on every [int]: this is the conversion [int -> double]. *)
Definition double_of_Z (z : Z) : double := binary_normalize prec emax z 0 false.

(** Double literals of the source, as their binary64 values. *)
Definition d_zero : double := S754_zero false.
Definition d_2_0 : double := S754_finite false 4503599627370496 (-51).
Definition d_8_0 : double := S754_finite false 4503599627370496 (-49).
Definition d_1000_0 : double := S754_finite false 8796093022208000 (-43).
Definition d_1000000_0 : double := S754_finite false 8589934592000000 (-33).
Definition d_0_33 : double := S754_finite false 5944751508129055 (-54).
Definition d_40_0 : double := S754_finite false 5629499534213120 (-47).
Definition d_60_0 : double := S754_finite false 8444249301319680 (-47).

(** The double that the literal [1555.2] of the specification's second
    scenario denotes. *)
Definition d_1555_2 : double := S754_finite false 6839841934068941 (-42).

(** Exact rational value of a double (zero for the non-finite ones). *)
Definition Q_of_double (x : double) : Q :=
  match x with
  | S754_finite s m e =>
      let v := match e with
               | Zneg p => Qmake (Zpos m) (2 ^ p)
               | _ => inject_Z (Zpos m * 2 ^ e)
               end in
      if s then Qopp v else v
  | _ => 0%Q
  end.

Definition is_finite (x : double) : bool :=
  match x with
  | S754_zero _ | S754_finite _ _ _ => true
  | _ => false
  end.

(** The exact value of a finite double in units of the smallest positive
    double, [2 ^ emin]: an integer for every valid double. *)
Definition scaled (x : double) : Z :=
  match x with
  | S754_finite s m e => cond_Zopp s (Zpos m * 2 ^ (e - d_emin))
  | _ => 0
  end.

(** The unit in the last place of a finite double, in the unit of [scaled]. *)
Definition ulp (x : double) : Z :=
  match x with
  | S754_finite _ _ e => 2 ^ (e - d_emin)
  | _ => 0
  end.

(** The smallest double of its binade: the mantissa is [2 ^ (prec - 1)]. *)
Definition binade_start (x : double) : bool :=
  match x with
  | S754_finite _ m _ => Zpos m =? 2 ^ (prec - 1)
  | _ => false
  end.

(** Four times the distance from a normal double down to the midpoint with
    its predecessor: one unit in the last place at the start of a binade
    (where the predecessor is half as far), two otherwise. *)
Definition lower_gap4 (x : double) : Z :=
  if binade_start x then ulp x else 2 * ulp x.

(** A valid finite double: canonical mantissa and exponent in range. *)
Definition valid (x : double) : bool := valid_binary prec emax x && is_finite x.

(** ** The estimators of profile.cu *)

(** Lines 20-41: the [coresPerSM] selection inside [getTheoreticalGFLOPS]. *)
Definition coresPerSM (major minor : Z) : Z :=
  if major =? 2 then 32
  else if major =? 3 then 192
  else if major =? 5 then 128
  else if major =? 6 then (if minor =? 0 then 64 else 128)
  else if major =? 7 then (if minor =? 0 then 64 else 64)
  else if major =? 8 then (if minor =? 0 then 64 else 128)
  else if major =? 9 then 128
  else 64.

(** Line 43. *)
Definition totalCores (major minor multiProcessorCount : Z) : Z :=
  int_mul (coresPerSM major minor) multiProcessorCount.

(** Lines 16-48.  [totalCores * clockRate] is an [int] product; only its
    result is converted to [double]. *)
Definition getTheoreticalGFLOPS (major minor multiProcessorCount clockRate : Z) : double :=
  let totalCores := totalCores major minor multiProcessorCount in
  ddiv (dmul (double_of_Z (int_mul totalCores clockRate)) d_2_0) d_1000000_0.

(** Lines 51-54. *)
Definition getMemoryBandwidth (memoryClockRate memoryBusWidth : Z) : double :=
  ddiv (dmul (dmul (double_of_Z memoryClockRate) d_2_0) (double_of_Z memoryBusWidth))
       (dmul d_8_0 d_1000_0).

(** Lines 57-60. *)
Definition calculateBoundaryArithmeticIntensity (peakGFLOPS memoryBandwidthGB : double) : double :=
  ddiv peakGFLOPS memoryBandwidthGB.

(** ** The formulas as the specification words them *)

(** [clusters x cores_per_cluster x clock_rate x 2 / 1e6]: the quotient, in
    double arithmetic, of the integer numerator by the denominator.  The
    numerator is an exact double whenever it is below [2 ^ 53], and the
    result is then the formula's value rounded once. *)
Definition peak_throughput_formula (clusters cores_per_cluster clock_rate : Z) : double :=
  ddiv (double_of_Z (clusters * cores_per_cluster * clock_rate * 2)) (double_of_Z 1000000).

(** [mem_clock x 2 x bus_width / 8000], likewise. *)
Definition peak_bandwidth_formula (mem_clock bus_width : Z) : double :=
  ddiv (double_of_Z (mem_clock * 2 * bus_width)) (double_of_Z 8000).

(** ** The core-count table as data *)

(** The table of lines 22-41 as data: the generations that have an entry,
    each with its value as a function of the minor version. *)
Definition core_table : list (Z * (Z -> Z)) :=
  [ (2, fun _ => 32);
    (3, fun _ => 192);
    (5, fun _ => 128);
    (6, fun minor => if minor =? 0 then 64 else 128);
    (7, fun _ => 64);
    (8, fun minor => if minor =? 0 then 64 else 128);
    (9, fun _ => 128) ].

Definition default_cores : Z := 64.

Fixpoint table_entry (table : list (Z * (Z -> Z))) (major : Z) : option (Z -> Z) :=
  match table with
  | [] => None
  | (g, f) :: rest => if major =? g then Some f else table_entry rest major
  end.

Definition table_cores (major minor : Z) : Z :=
  match table_entry core_table major with
  | Some f => f minor
  | None => default_cores
  end.

(** ** The program: [CUDA_CHECK] and [main] *)

Definition cudaError_t : Type := Z.
Definition cudaSuccess : cudaError_t := 0.

(** The fields of [cudaDeviceProp] that the program reads. *)
Record cudaDeviceProp : Type := {
  name : string;
  major : Z;
  minor : Z;
  multiProcessorCount : Z;
  clockRate : Z;
  memoryClockRate : Z;
  memoryBusWidth : Z;
  totalGlobalMem : Z;
  sharedMemPerBlock : Z
}.

(** What one run leaves behind: the strings written to [std::cout] and to
    [std::cerr], one per output statement, and the exit code. *)
Record run : Type := {
  stdout : list string;
  stderr : list string;
  exit_code : Z
}.

Definition nl : string := String (ascii_of_nat 10) EmptyString.

(** [std::string(n, c)]. *)
Fixpoint string_fill (n : nat) (c : ascii) : string :=
  match n with
  | O => EmptyString
  | S k => String c (string_fill k c)
  end.

Definition banner : string :=
  ("=== GPU Memory Bound vs Computing Bound 分析 ===" ++ nl ++ nl)%string.

Definition no_device_message : string := ("没有发现CUDA设备！" ++ nl)%string.

(** Line 153. *)
Definition separator : string := (nl ++ string_fill 60 "="%char ++ nl)%string.

Definition memory_bound_label : string := (" → Memory Bound" ++ nl)%string.
Definition compute_bound_label : string := (" → Computing Bound" ++ nl)%string.

(** Lines 113-114 and their four copies: the branch taken on
    [intensity < boundaryAI]. *)
Definition bound_label (intensity boundaryAI : double) : string :=
  if dlt intensity boundaryAI then memory_bound_label else compute_bound_label.

Section Program.

(** The CUDA runtime as one run sees it: the status and value of the
    device-count query, and of the property query of each device. *)
Variable cudaGetDeviceCount : cudaError_t * Z.
Variable cudaGetDeviceProperties : Z -> cudaError_t * cudaDeviceProp.
Variable cudaGetErrorString : cudaError_t -> string.

(** iostream formatting of an integer, and of a [double] under
    [std::fixed << std::setprecision(2)]. *)
Variable show_int : Z -> string.
Variable show_double : double -> string.

Local Open Scope string_scope.

(** Lines 9-12: what [CUDA_CHECK] does on a failed call, [written] being
    what [std::cout] has received so far. *)
Definition cuda_check_failure (written : list string) (error : cudaError_t) : run :=
  {| stdout := written;
     stderr := ["CUDA error: " ++ cudaGetErrorString error ++ nl];
     exit_code := 1 |}.

(** Lines 6-13: [CUDA_CHECK(call)] followed by the rest of the program. *)
Definition CUDA_CHECK (written : list string) (error : cudaError_t) (rest : run) : run :=
  if (error =? cudaSuccess)%Z then rest else cuda_check_failure written error.

(** Lines 77-87. *)
Definition hardware_block (device : Z) (prop : cudaDeviceProp) : list string :=
  [ "=== 设备 " ++ show_int device ++ ": " ++ name prop ++ " ===" ++ nl;
    nl ++ "硬件规格:" ++ nl;
    "  计算能力: " ++ show_int (major prop) ++ "." ++ show_int (minor prop) ++ nl;
    "  流多处理器(SM)数量: " ++ show_int (multiProcessorCount prop) ++ nl;
    "  基础时钟频率: " ++ show_int (Z.quot (clockRate prop) 1000) ++ " MHz" ++ nl;
    "  内存时钟频率: " ++ show_int (Z.quot (memoryClockRate prop) 1000) ++ " MHz" ++ nl;
    "  内存总线宽度: " ++ show_int (memoryBusWidth prop) ++ " bit" ++ nl;
    "  全局内存大小: " ++ show_int (totalGlobalMem prop / (1024 * 1024 * 1024)) ++ " GB" ++ nl;
    "  共享内存大小: " ++ show_int (sharedMemPerBlock prop / 1024) ++ " KB per block" ++ nl ].

(** Lines 100-108 (line 101 sets the format and writes nothing). *)
Definition analysis_block (theoreticalGFLOPS memoryBandwidth boundaryAI : double) : list string :=
  [ nl ++ "性能分析:" ++ nl;
    "  理论峰值计算性能: " ++ show_double theoreticalGFLOPS ++ " GFLOPS" ++ nl;
    "  理论峰值内存带宽: " ++ show_double memoryBandwidth ++ " GB/s" ++ nl;
    "  界限算术强度: " ++ show_double boundaryAI ++ " FLOP/Byte" ++ nl;
    nl ++ "Memory Bound vs Computing Bound 分析:" ++ nl;
    "  当算术强度 < " ++ show_double boundaryAI ++ " FLOP/Byte 时: Memory Bound" ++ nl;
    "  当算术强度 > " ++ show_double boundaryAI ++ " FLOP/Byte 时: Computing Bound" ++ nl ].

(** Lines 111-130. *)
Definition reference_block (boundaryAI : double) : list string :=
  [ nl ++ "常见操作的算术强度参考:" ++ nl;
    "  向量加法 (C = A + B): ~0.33 FLOP/Byte";
    bound_label d_0_33 boundaryAI;
    "  矩阵-向量乘法: ~2 FLOP/Byte";
    bound_label d_2_0 boundaryAI;
    "  小矩阵乘法 (64x64): ~8 FLOP/Byte";
    bound_label d_8_0 boundaryAI;
    "  大矩阵乘法 (1024x1024+): ~40+ FLOP/Byte";
    bound_label d_40_0 boundaryAI;
    "  卷积 (大kernel): ~20-100 FLOP/Byte";
    bound_label d_60_0 boundaryAI ].

(** Lines 133-144. *)
Definition advice_block : list string :=
  [ nl ++ "优化建议:" ++ nl;
    "  Memory Bound操作优化策略:" ++ nl;
    "    - 减少内存访问次数" ++ nl;
    "    - 使用合并内存访问" ++ nl;
    "    - 利用共享内存和缓存" ++ nl;
    "    - 数据重用" ++ nl;
    "  Computing Bound操作优化策略:" ++ nl;
    "    - 增加并行度" ++ nl;
    "    - 使用Tensor Cores (如果支持)" ++ nl;
    "    - 优化算法复杂度" ++ nl;
    "    - 使用更高效的数学库" ++ nl ].

(** Lines 147-150. *)
Definition roofline_block (theoreticalGFLOPS memoryBandwidth boundaryAI : double) : list string :=
  [ nl ++ "Roofline模型关键点:" ++ nl;
    "  峰值性能线: " ++ show_double theoreticalGFLOPS ++ " GFLOPS (水平线)" ++ nl;
    "  内存带宽线: Performance = " ++ show_double memoryBandwidth ++ " × AI (斜率="
      ++ show_double memoryBandwidth ++ ")" ++ nl;
    "  交点 (Ridge Point): (" ++ show_double boundaryAI ++ ", "
      ++ show_double theoreticalGFLOPS ++ ")" ++ nl ].

(** Lines 77-150: everything one loop iteration writes before the
    separator test. *)
Definition device_section (device : Z) (prop : cudaDeviceProp) : list string :=
  let theoreticalGFLOPS :=
    getTheoreticalGFLOPS (major prop) (minor prop) (multiProcessorCount prop) (clockRate prop) in
  let memoryBandwidth := getMemoryBandwidth (memoryClockRate prop) (memoryBusWidth prop) in
  let boundaryAI := calculateBoundaryArithmeticIntensity theoreticalGFLOPS memoryBandwidth in
  (hardware_block device prop
   ++ analysis_block theoreticalGFLOPS memoryBandwidth boundaryAI
   ++ reference_block boundaryAI
   ++ advice_block
   ++ roofline_block theoreticalGFLOPS memoryBandwidth boundaryAI)%list.

(** Lines 152-154. *)
Definition separator_after (device deviceCount : Z) : list string :=
  if (device <? deviceCount - 1)%Z then [separator] else [].

(** Lines 73-155: the loop, entered with [device] and [todo] iterations
    left ([todo] is [deviceCount - device], or 0 when that is negative);
    [written] is what [std::cout] has received so far.  A failing
    property query leaves through [exit(1)]. *)
Fixpoint report_loop (todo : nat) (device deviceCount : Z) (written : list string) : run :=
  match todo with
  | O => {| stdout := written; stderr := []; exit_code := 0 |}
  | S todo' =>
      let '(error, prop) := cudaGetDeviceProperties device in
      CUDA_CHECK written error
        (report_loop todo' (device + 1) deviceCount
           (written ++ device_section device prop ++ separator_after device deviceCount)%list)
  end.

(** Lines 62-158. *)
Definition main : run :=
  let '(error, deviceCount) := cudaGetDeviceCount in
  CUDA_CHECK [banner] error
    (if (deviceCount =? 0)%Z
     then {| stdout := [banner; no_device_message]; stderr := []; exit_code := 1 |}
     else report_loop (Z.to_nat deviceCount) 0 deviceCount [banner]).

(** The property queries of devices [0 .. n-1] all succeed. *)
Definition queries_succeed (n : Z) : Prop :=
  forall i, 0 <= i < n -> fst (cudaGetDeviceProperties i) = cudaSuccess.

(** Device [k] is the first whose property query fails. *)
Definition first_failure (k : Z) : Prop :=
  0 <= k /\ queries_succeed k /\ fst (cudaGetDeviceProperties k) <> cudaSuccess.

(** The sections of devices [first .. first + count - 1], each followed by
    the separator the loop writes after it. *)
Fixpoint sections_from (count : nat) (first deviceCount : Z) : list string :=
  match count with
  | O => []
  | S k =>
      (device_section first (snd (cudaGetDeviceProperties first))
       ++ separator_after first deviceCount
       ++ sections_from k (first + 1) deviceCount)%list
  end.

(** Sections joined by one separator between neighbours, none at the end. *)
Fixpoint join_sections (sections : list (list string)) : list string :=
  match sections with
  | [] => []
  | [s] => s
  | s :: rest => (s ++ separator :: join_sections rest)%list
  end.

Definition device_sections (count : nat) (first : Z) : list (list string) :=
  map (fun i => let device := first + Z.of_nat i in
                device_section device (snd (cudaGetDeviceProperties device)))
      (seq 0 count).

End Program.

(** The five reference workloads with the representative intensity the
    specification gives each. *)
Definition reference_workloads : list double :=
  [d_0_33; d_2_0; d_8_0; d_40_0; d_60_0].

(** The labels of a reference block: after its heading, every second item. *)
Fixpoint every_second (items : list string) : list string :=
  match items with
  | _ :: label :: rest => label :: every_second rest
  | _ => []
  end.

Definition workload_labels (boundaryAI : double) : list string :=
  every_second (tl (reference_block boundaryAI)).

(** A run with two devices whose queries succeed. *)
Definition two_devices_count : cudaError_t * Z := (cudaSuccess, 2).

Definition sample_prop : cudaDeviceProp :=
  {| name := "A100"; major := 8; minor := 0; multiProcessorCount := 108;
     clockRate := 1410000; memoryClockRate := 1215000; memoryBusWidth := 5120;
     totalGlobalMem := 42949672960; sharedMemPerBlock := 49152 |}.

Definition always_succeeds (device : Z) : cudaError_t * cudaDeviceProp :=
  (cudaSuccess, sample_prop).

Definition sample_error_string (error : cudaError_t) : string := "unknown error".
Definition sample_show_int (z : Z) : string := "0".
Definition sample_show_double (x : double) : string := "0.00".

(** A run on a machine with three devices where the query of the second
    device fails, and a runtime that answers for the first two devices
    only. *)
Definition three_devices_count : cudaError_t * Z := (cudaSuccess, 3).

Definition second_query_fails (device : Z) : cudaError_t * cudaDeviceProp :=
  (if device =? 1 then 1 else cudaSuccess, sample_prop).

Definition answers_two_devices (device : Z) : cudaError_t * cudaDeviceProp :=
  if device <? 2 then always_succeeds device else (1, sample_prop).

(** A diagnostic of [CUDA_CHECK] (line 10): one line on [std::cerr] naming
    a failure. *)
Definition is_diagnostic (cudaGetErrorString : cudaError_t -> string)
           (lines : list string) : Prop :=
  exists error, error <> cudaSuccess /\
                lines = [("CUDA error: " ++ cudaGetErrorString error ++ nl)%string].

(** ** Magnitude classes of doubles *)

(** A normal double of sign [s] whose absolute value lies in
    [[2^(lo-1), 2^hi)]. *)
Definition normal (s : bool) (lo hi : Z) (x : double) : Prop :=
  exists m e, x = S754_finite s m e /\ Zpos (digits2_pos m) = prec /\
              lo <= e + prec <= hi.

Definition is_zero (x : double) : Prop := exists s, x = S754_zero s.

(** Line 45 as a function of the [int] product it starts from. *)
Definition gflops_of (n : Z) : double := ddiv (dmul (double_of_Z n) d_2_0) d_1000000_0.

(** ** Rounding without loss *)

Definition exact_record (m : Z) : shr_record :=
  {| shr_m := m; shr_r := false; shr_s := false |}.

(** The number of zero bits that [binary_round] appends to [p]. *)
Definition padding (p : positive) : Z := Z.max 0 (prec - Zpos (digits2_pos p)).

(** The record [mrs] locates the number [N / W]: its mantissa is the integer
    part, the round bit tells whether the fraction reaches one half and the
    sticky bit whether it is neither zero nor one half. *)
Definition locates (mrs : shr_record) (N W : Z) : Prop :=
  0 <= N - shr_m mrs * W < W /\
  (shr_r mrs = true <-> W <= 2 * (N - shr_m mrs * W)) /\
  (shr_s mrs = true <-> N - shr_m mrs * W <> 0 /\ 2 * (N - shr_m mrs * W) <> W).

(** * Properties *)

Ltac int_range := unfold in_int, INT_MIN, INT_MAX; lia.

Ltac params := unfold d_emin, emin, prec, emax in *; lia.

(** ** Checks of the literals *)

Example literals_are_integers :
  d_2_0 = double_of_Z 2 /\ d_8_0 = double_of_Z 8 /\ d_1000_0 = double_of_Z 1000 /\
  d_1000000_0 = double_of_Z 1000000 /\ d_40_0 = double_of_Z 40 /\ d_60_0 = double_of_Z 60.
Proof. repeat split; vm_compute; reflexivity. Qed.

(** [0.33] is the double nearest to 33/100: it is the correctly rounded
    quotient, and 33/100 lies within half a unit in the last place. *)
Example literal_0_33 :
  d_0_33 = ddiv (double_of_Z 33) (double_of_Z 100) /\
  (Qabs (Q_of_double d_0_33 - (33 # 100)) <= (1 # (2 ^ 55)))%Q.
Proof. split; vm_compute; [reflexivity | discriminate]. Qed.

(** Likewise [1555.2] is the double nearest to 15552/10. *)
Example literal_1555_2 :
  d_1555_2 = ddiv (double_of_Z 15552) (double_of_Z 10) /\
  (Qabs (Q_of_double d_1555_2 - (15552 # 10)) <= (1 # (2 ^ 43)))%Q.
Proof. split; vm_compute; [reflexivity | discriminate]. Qed.

(** ** Binary digits *)

Lemma digits2_pos_size (p : positive) : digits2_pos p = Pos.size p.
Proof. induction p; simpl; congruence. Qed.

Lemma Zdigits2_log2 (m : Z) : 0 < m -> Zdigits2 m = Z.log2 m + 1.
Proof.
  destruct m as [|p|p]; try lia. intros _.
  destruct p; simpl; rewrite ?digits2_pos_size; lia.
Qed.

Lemma Zdigits2_bounds (m : Z) :
  0 < m -> 2 ^ (Zdigits2 m - 1) <= m < 2 ^ Zdigits2 m.
Proof.
  intros Hm. rewrite (Zdigits2_log2 m Hm).
  replace (Z.log2 m + 1 - 1) with (Z.log2 m) by lia.
  apply Z.log2_spec; assumption.
Qed.

Lemma Zdigits2_unique (m d : Z) :
  2 ^ (d - 1) <= m < 2 ^ d -> 1 <= d -> Zdigits2 m = d.
Proof.
  intros Hb Hd.
  assert (0 < 2 ^ (d - 1)) by (apply Z.pow_pos_nonneg; lia).
  assert (0 < m) by lia.
  rewrite Zdigits2_log2 by assumption.
  rewrite (Z.log2_unique m (d - 1)); try lia.
  replace (Z.succ (d - 1)) with d by lia. assumption.
Qed.

Lemma Zdigits2_pos_ge_1 (p : positive) : 1 <= Zpos (digits2_pos p).
Proof. lia. Qed.

Lemma Zdigits2_le (m k : Z) : 0 < m -> m < 2 ^ k -> Zdigits2 m <= k.
Proof.
  intros Hm Hk. pose proof (Zdigits2_bounds m Hm) as [Hlo _].
  destruct (Z_lt_le_dec k (Zdigits2 m)) as [Hgt|]; [|assumption].
  exfalso. destruct (Z_lt_le_dec k 0) as [Hneg|Hnn].
  - rewrite Z.pow_neg_r in Hk by assumption. lia.
  - assert (2 ^ k <= 2 ^ (Zdigits2 m - 1)) by (apply Z.pow_le_mono_r; lia). lia.
Qed.

Lemma Zdigits2_mul (a b : Z) :
  0 < a -> 0 < b ->
  Zdigits2 a + Zdigits2 b - 1 <= Zdigits2 (a * b) <= Zdigits2 a + Zdigits2 b.
Proof.
  intros Ha Hb.
  pose proof (Zdigits2_bounds a Ha) as [Ha1 Ha2].
  pose proof (Zdigits2_bounds b Hb) as [Hb1 Hb2].
  assert (Hda : 1 <= Zdigits2 a) by (rewrite Zdigits2_log2 by assumption; pose proof (Z.log2_nonneg a); lia).
  assert (Hdb : 1 <= Zdigits2 b) by (rewrite Zdigits2_log2 by assumption; pose proof (Z.log2_nonneg b); lia).
  assert (Hab : 0 < a * b) by lia.
  pose proof (Zdigits2_bounds (a * b) Hab) as [Hc1 Hc2].
  assert (Hlo : 2 ^ (Zdigits2 a - 1 + (Zdigits2 b - 1)) <= a * b).
  { rewrite Z.pow_add_r by lia. apply Z.mul_le_mono_nonneg; try assumption; apply Z.pow_nonneg; lia. }
  assert (Hhi : a * b < 2 ^ (Zdigits2 a + Zdigits2 b)).
  { rewrite Z.pow_add_r by lia. apply Z.mul_lt_mono_nonneg; lia. }
  split.
  - destruct (Z_lt_le_dec (Zdigits2 (a * b)) (Zdigits2 a + Zdigits2 b - 1)) as [Hlt|]; [|lia].
    exfalso.
    assert (2 ^ Zdigits2 (a * b) <= 2 ^ (Zdigits2 a - 1 + (Zdigits2 b - 1)))
      by (apply Z.pow_le_mono_r; lia).
    lia.
  - destruct (Z_lt_le_dec (Zdigits2 a + Zdigits2 b) (Zdigits2 (a * b))) as [Hlt|]; [|lia].
    exfalso.
    assert (2 ^ (Zdigits2 a + Zdigits2 b) <= 2 ^ (Zdigits2 (a * b) - 1))
      by (apply Z.pow_le_mono_r; lia).
    lia.
Qed.

Lemma Zdigits2_mul_pow2 (m k : Z) :
  0 < m -> 0 <= k -> Zdigits2 (m * 2 ^ k) = Zdigits2 m + k.
Proof.
  intros Hm Hk. pose proof (Zdigits2_bounds m Hm) as [Hlo Hhi].
  assert (Hd : 1 <= Zdigits2 m)
    by (rewrite Zdigits2_log2 by assumption; pose proof (Z.log2_nonneg m); lia).
  assert (Hp : 0 < 2 ^ k) by (apply Z.pow_pos_nonneg; lia).
  apply Zdigits2_unique; [|lia].
  replace (Zdigits2 m + k - 1) with (Zdigits2 m - 1 + k) by lia.
  rewrite !Z.pow_add_r by lia. split.
  - apply Z.mul_le_mono_nonneg_r; lia.
  - apply Z.mul_lt_mono_pos_r; lia.
Qed.

Lemma div_pow2_digits (m n : Z) :
  0 < m -> 0 <= n -> n < Zdigits2 m ->
  2 ^ (Zdigits2 m - n - 1) <= m / 2 ^ n < 2 ^ (Zdigits2 m - n).
Proof.
  intros Hm Hn Hd. pose proof (Zdigits2_bounds m Hm) as [Hlo Hhi].
  assert (Hp : 0 < 2 ^ n) by (apply Z.pow_pos_nonneg; lia).
  split.
  - apply Z.div_le_lower_bound; [assumption|].
    rewrite <- Z.pow_add_r by lia.
    replace (n + (Zdigits2 m - n - 1)) with (Zdigits2 m - 1) by lia. assumption.
  - apply Z.div_lt_upper_bound; [assumption|].
    rewrite <- Z.pow_add_r by lia.
    replace (n + (Zdigits2 m - n)) with (Zdigits2 m) by lia. assumption.
Qed.

Lemma iter_xO_pow2 (p k : positive) :
  Zpos (Pos.iter xO p k) = Zpos p * 2 ^ Zpos k.
Proof.
  induction k as [|k IH] using Pos.peano_ind.
  - simpl. lia.
  - rewrite Pos.iter_succ, Pos2Z.inj_xO, IH, Pos2Z.inj_succ, Z.pow_succ_r by lia. lia.
Qed.

Lemma Zdigits2_int (z : Z) : in_int z -> z <> 0 -> 1 <= Zdigits2 z <= 32.
Proof.
  unfold in_int, INT_MIN, INT_MAX. intros Hz Hnz.
  destruct z as [|p|p]; [congruence| |];
    (split; [apply Zdigits2_pos_ge_1|]);
    change (Zdigits2 (Zneg p)) with (Zdigits2 (Zpos p));
    apply Zdigits2_le; lia.
Qed.

Lemma Zdigits2_below_prec (n : Z) : 0 < n < 2 ^ prec -> 1 <= Zdigits2 n <= prec.
Proof.
  intros Hn. destruct n as [|p|p]; try lia.
  split; [apply Zdigits2_pos_ge_1 | apply Zdigits2_le; lia].
Qed.

(** ** Right shifts *)

Lemma shr_1_fields (mrs : shr_record) :
  0 <= shr_m mrs ->
  shr_1 mrs = {| shr_m := shr_m mrs / 2;
                 shr_r := Z.odd (shr_m mrs);
                 shr_s := shr_r mrs || shr_s mrs |}.
Proof.
  destruct mrs as [m r s]. cbn [shr_m shr_r shr_s]. intros Hm.
  destruct m as [|[p|p|]|p]; try lia; cbn [shr_1]; f_equal.
  - rewrite Pos2Z.inj_xI. apply (Z.div_unique _ _ _ 1); lia.
  - rewrite Pos2Z.inj_xO. apply (Z.div_unique _ _ _ 0); lia.
Qed.

Lemma shr_1_m (mrs : shr_record) :
  0 <= shr_m mrs -> shr_m (shr_1 mrs) = shr_m mrs / 2.
Proof. intros Hm. rewrite shr_1_fields by assumption. reflexivity. Qed.

Lemma shr_1_nonneg (mrs : shr_record) : 0 <= shr_m mrs -> 0 <= shr_m (shr_1 mrs).
Proof. intros H. rewrite shr_1_m by assumption. apply Z.div_pos; lia. Qed.

Lemma iter_shr_1_m (p : positive) (mrs : shr_record) :
  0 <= shr_m mrs ->
  shr_m (iter_pos shr_1 p mrs) = shr_m mrs / 2 ^ Zpos p.
Proof.
  revert mrs. induction p as [p IH|p IH|]; intros mrs Hm; simpl iter_pos.
  - assert (H1 : 0 <= shr_m (shr_1 mrs)).
    { rewrite shr_1_m by assumption. apply Z.div_pos; lia. }
    assert (H2 : 0 <= shr_m (iter_pos shr_1 p (shr_1 mrs))).
    { rewrite IH by assumption. apply Z.div_pos; lia. }
    rewrite IH, IH, shr_1_m by assumption.
    rewrite !Z.div_div by lia.
    f_equal. rewrite Pos2Z.inj_xI, Z.pow_add_r, Z.pow_mul_r, Z.pow_1_r by lia.
    change (2 ^ 2) with 4. rewrite <- Z.pow_mul_l.
    replace (2 ^ Z.pos p * 2 ^ Z.pos p) with ((2 * 2) ^ Z.pos p)
      by (rewrite Z.pow_mul_l; reflexivity).
    change (2 * 2) with 4. lia.
  - assert (H2 : 0 <= shr_m (iter_pos shr_1 p mrs)).
    { rewrite IH by assumption. apply Z.div_pos; lia. }
    rewrite IH, IH by assumption.
    rewrite Z.div_div by lia.
    f_equal. rewrite Pos2Z.inj_xO, <- Z.pow_add_r by lia. f_equal. lia.
  - rewrite shr_1_m by assumption. reflexivity.
Qed.

Lemma shr_m_spec (mrs : shr_record) (e n : Z) :
  0 <= shr_m mrs -> 0 <= n ->
  shr_m (fst (shr mrs e n)) = shr_m mrs / 2 ^ n /\ snd (shr mrs e n) = e + n.
Proof.
  intros Hm Hn. destruct n as [|p|p]; try lia; simpl.
  - rewrite Z.div_1_r. split; [reflexivity | lia].
  - split; [apply iter_shr_1_m; assumption | reflexivity].
Qed.

Lemma iter_pos_nat {A : Type} (f : A -> A) (p : positive) (x : A) :
  iter_pos f p x = Nat.iter (Pos.to_nat p) f x.
Proof.
  revert x. induction p as [p IH|p IH|]; intros x; simpl iter_pos.
  - rewrite !IH, Pos2Nat.inj_xI, <- Nat.iter_add, <- Nat.iter_succ_r.
    f_equal. lia.
  - rewrite !IH, Pos2Nat.inj_xO, <- Nat.iter_add. f_equal. lia.
  - reflexivity.
Qed.

Lemma shr_nat (mrs : shr_record) (e n : Z) :
  0 <= n -> shr mrs e n = (Nat.iter (Z.to_nat n) shr_1 mrs, e + n).
Proof.
  intros Hn. destruct n as [|p|p]; try lia; simpl.
  - rewrite Z.add_0_r. reflexivity.
  - rewrite iter_pos_nat. reflexivity.
Qed.

Lemma shr_1_double (q : Z) : 0 <= q -> shr_1 (exact_record (2 * q)) = exact_record q.
Proof. destruct q as [|p|p]; try lia; reflexivity. Qed.

Lemma iter_shr_1_exact (k : nat) (q : Z) :
  0 <= q -> Nat.iter k shr_1 (exact_record (q * 2 ^ Z.of_nat k)) = exact_record q.
Proof.
  intros Hq. induction k as [|k IH].
  - simpl. rewrite Z.mul_1_r. reflexivity.
  - rewrite Nat.iter_succ_r.
    replace (q * 2 ^ Z.of_nat (S k)) with (2 * (q * 2 ^ Z.of_nat k))
      by (rewrite Nat2Z.inj_succ, Z.pow_succ_r by lia; ring).
    rewrite shr_1_double by (apply Z.mul_nonneg_nonneg; [lia | apply Z.pow_nonneg; lia]).
    exact IH.
Qed.

(** ** Locations: what a shift record knows about the number it truncates *)

Lemma locates_shr_1 (mrs : shr_record) (N W : Z) :
  0 <= shr_m mrs -> 0 < W -> locates mrs N W -> locates (shr_1 mrs) N (2 * W).
Proof.
  intros Hm HW (Hrem & Hr & Hs). rewrite shr_1_fields by assumption.
  unfold locates. cbn [shr_m shr_r shr_s].
  pose proof (Z.div2_odd (shr_m mrs)) as Hdm. rewrite Z.div2_div in Hdm.
  rewrite orb_true_iff.
  destruct (Z.odd (shr_m mrs)); cbn [Z.b2z] in Hdm.
  - replace (N - shr_m mrs / 2 * (2 * W)) with (N - shr_m mrs * W + W) by nia.
    destruct (shr_r mrs), (shr_s mrs); intuition (try discriminate; try lia).
  - replace (N - shr_m mrs / 2 * (2 * W)) with (N - shr_m mrs * W) by nia.
    destruct (shr_r mrs), (shr_s mrs); intuition (try discriminate; try lia).
Qed.

Lemma locates_iter (k : nat) (mrs : shr_record) (N W : Z) :
  0 <= shr_m mrs -> 0 < W -> locates mrs N W ->
  0 <= shr_m (Nat.iter k shr_1 mrs) /\
  locates (Nat.iter k shr_1 mrs) N (2 ^ Z.of_nat k * W).
Proof.
  intros Hm HW Hl. induction k as [|k [IHm IHl]].
  - change (2 ^ Z.of_nat 0 * W) with (1 * W). rewrite Z.mul_1_l. split; assumption.
  - rewrite Nat.iter_succ. split; [apply shr_1_nonneg; assumption|].
    replace (2 ^ Z.of_nat (S k) * W) with (2 * (2 ^ Z.of_nat k * W))
      by (rewrite Nat2Z.inj_succ, Z.pow_succ_r by lia; ring).
    apply locates_shr_1; try assumption.
    apply Z.mul_pos_pos; [apply Z.pow_pos_nonneg; lia | assumption].
Qed.

Lemma locates_any (m : Z) (l : location) :
  exists N, locates (shr_record_of_loc m l) N 4.
Proof.
  destruct l as [|[| |]];
    [exists (4 * m) | exists (4 * m + 2) | exists (4 * m + 1) | exists (4 * m + 3)];
    unfold locates; cbn [shr_record_of_loc shr_m shr_r shr_s];
    intuition (try discriminate; try lia).
Qed.

(** The location computed by a division step locates the quotient. *)
Lemma locates_new_location (q r D : Z) :
  0 <= r < D ->
  locates (shr_record_of_loc q (new_location D r)) (q * D + r) D.
Proof.
  intros Hr. unfold new_location, new_location_even, new_location_odd.
  assert (Hgoal : forall l : location,
             (l = loc_Exact -> r = 0) ->
             (l = loc_Inexact Lt -> r <> 0 /\ 2 * r < D) ->
             (l = loc_Inexact Eq -> 2 * r = D) ->
             (l = loc_Inexact Gt -> D < 2 * r) ->
             locates (shr_record_of_loc q l) (q * D + r) D).
  { intros l HE HL HQ HG. unfold locates.
    destruct l as [|[| |]]; cbn [shr_record_of_loc shr_m shr_r shr_s];
      replace (q * D + r - q * D) with r by ring;
      [ specialize (HE eq_refl) | specialize (HQ eq_refl)
      | specialize (HL eq_refl) | specialize (HG eq_refl) ];
      intuition (try discriminate; try lia). }
  apply Hgoal; destruct (Z.even D) eqn:Ev; destruct (Z.eqb_spec r 0) as [E0|Hnz];
    try discriminate; try (intros _; assumption).
  all: try (destruct (Z.compare_spec (2 * r) D); intros Hc;
            inversion Hc; subst; lia).
  all: pose proof (Z.div2_odd D) as Hodd; rewrite <- Z.negb_even, Ev in Hodd;
    cbn [negb Z.b2z] in Hodd;
    destruct (Z.compare_spec (2 * r + 1) D); intros Hc; inversion Hc; lia.
Qed.

Lemma round_nearest_even_bounds (m : Z) (l : location) :
  m <= round_nearest_even m l <= m + 1.
Proof.
  destruct l as [|[| |]]; simpl; try lia. destruct (Z.even m); lia.
Qed.

(** Rounding to nearest moves the mantissa by at most half a unit. *)
Lemma round_nearest_even_accurate (mrs : shr_record) (N W : Z) :
  0 < W -> locates mrs N W ->
  2 * Z.abs (round_nearest_even (shr_m mrs) (loc_of_shr_record mrs) * W - N) <= W.
Proof.
  intros HW (Hrem & Hr & Hs). destruct mrs as [m r s]. cbn [shr_m shr_r shr_s] in *.
  destruct r, s; cbn [loc_of_shr_record round_nearest_even];
    try destruct (Z.even m); intuition (try discriminate; try lia).
Qed.

(** ** Rounding to [prec] digits *)

Lemma fexp_normal (x : Z) : d_emin <= x - prec -> fexp prec emax x = x - prec.
Proof. unfold fexp, d_emin. intros H. fold (emin prec emax). lia. Qed.

(** Rounding in the normal range, with its error: the result has [prec]
    digits and is within half a unit in its last place of the located
    number [N / W * 2 ^ e]. *)
Lemma binary_round_aux_accurate (s : bool) (m e : Z) (l : location) (N W : Z) :
  0 < m -> prec <= Zdigits2 m -> d_emin <= Zdigits2 m + e - prec ->
  0 < W -> locates (shr_record_of_loc m l) N W ->
  exists m' e',
    Zpos (digits2_pos m') = prec /\
    Zdigits2 m + e <= e' + prec <= Zdigits2 m + e + 1 /\
    e <= e' /\
    2 * Z.abs (Zpos m' * (2 ^ (e' - e) * W) - N) <= 2 ^ (e' - e) * W /\
    (Zpos m' = 2 ^ (prec - 1) ->
     4 * (Zpos m' * (2 ^ (e' - e) * W) - N) <= 2 ^ (e' - e) * W) /\
    binary_round_aux prec emax s m e l =
      if e' <=? emax - prec then S754_finite s m' e' else S754_infinity s.
Proof.
  intros Hm Hd He HW Hloc.
  unfold binary_round_aux, shr_fexp.
  rewrite (fexp_normal (Zdigits2 m + e)) by assumption.
  set (n := Zdigits2 m + e - prec - e).
  assert (Hn : 0 <= n) by (unfold n; lia).
  assert (Hn' : n = Zdigits2 m - prec) by (unfold n; lia).
  assert (Hrecm : shr_m (shr_record_of_loc m l) = m).
  { destruct l as [|[| |]]; reflexivity. }
  assert (Hrec : 0 <= shr_m (shr_record_of_loc m l)) by (rewrite Hrecm; lia).
  rewrite shr_nat by assumption.
  destruct (locates_iter (Z.to_nat n) _ N W Hrec HW Hloc) as [Hm1nn Hloc1].
  rewrite Z2Nat.id in Hloc1 by assumption.
  pose proof (shr_m_spec (shr_record_of_loc m l) e n Hrec Hn) as [H1 _].
  rewrite shr_nat in H1 by assumption. cbn [fst] in H1. rewrite Hrecm in H1.
  set (mrs1 := Nat.iter (Z.to_nat n) shr_1 (shr_record_of_loc m l)) in *.
  assert (Hm1 : 2 ^ (prec - 1) <= shr_m mrs1 < 2 ^ prec).
  { rewrite H1. pose proof (div_pow2_digits m n Hm Hn) as Hb.
    replace (Zdigits2 m - n) with prec in Hb by lia.
    replace (Zdigits2 m - n - 1) with (prec - 1) in Hb by lia.
    apply Hb. unfold prec in *. lia. }
  assert (HW1 : 0 < 2 ^ n * W)
    by (apply Z.mul_pos_pos; [apply Z.pow_pos_nonneg; lia | assumption]).
  pose proof (round_nearest_even_accurate mrs1 N (2 ^ n * W) HW1 Hloc1) as Hacc.
  set (m2 := round_nearest_even (shr_m mrs1) (loc_of_shr_record mrs1)) in *.
  pose proof (round_nearest_even_bounds (shr_m mrs1) (loc_of_shr_record mrs1)) as Hr.
  fold m2 in Hr.
  assert (Hm2 : 2 ^ (prec - 1) <= m2 <= 2 ^ prec) by lia.
  assert (Hm2pos : 0 < m2).
  { assert (0 < 2 ^ (prec - 1)) by (apply Z.pow_pos_nonneg; unfold prec; lia). lia. }
  destruct (Z.eq_dec m2 (2 ^ prec)) as [Heq|Hne].
  - (* the rounding carried into a new digit *)
    assert (Hd2 : Zdigits2 m2 = prec + 1).
    { apply Zdigits2_unique; [|unfold prec; lia]. rewrite Heq.
      replace (prec + 1 - 1) with prec by lia. split; [lia|].
      apply Z.pow_lt_mono_r; unfold prec; lia. }
    rewrite Hd2.
    rewrite (fexp_normal (prec + 1 + (e + n))) by lia.
    replace (prec + 1 + (e + n) - prec - (e + n)) with 1 by lia.
    rewrite Heq in *. cbn [shr shr_record_of_loc].
    change (iter_pos shr_1 1 {| shr_m := 2 ^ prec; shr_r := false; shr_s := false |})
      with {| shr_m := 4503599627370496; shr_r := false; shr_s := false |}.
    cbn [shr_m].
    exists (4503599627370496%positive), (e + n + 1).
    split; [reflexivity|]. split; [lia|]. split; [lia|].
    replace (e + n + 1 - e) with (n + 1) by lia.
    rewrite Z.pow_add_r, Z.pow_1_r by lia.
    change (2 ^ prec) with (4503599627370496 * 2) in Hacc.
    split; [nia|]. split; [intros _; nia | reflexivity].
  - assert (Hd2 : Zdigits2 m2 = prec).
    { apply Zdigits2_unique; [lia | unfold prec; lia]. }
    rewrite Hd2.
    rewrite (fexp_normal (prec + (e + n))) by lia.
    replace (prec + (e + n) - prec - (e + n)) with 0 by lia.
    cbn [shr shr_record_of_loc shr_m].
    destruct m2 as [|p|p] eqn:Em2; try lia.
    exists p, (e + n). split; [exact Hd2|]. split; [lia|]. split; [lia|].
    replace (e + n - e) with n by lia.
    split; [exact Hacc|]. split; [|reflexivity].
    intros Hp. destruct Hloc1 as [Hrem _]. nia.
Qed.

(** Rounding a mantissa with at least [prec] digits whose result lies in
    the normal range: the result has exactly [prec] digits and its exponent
    is the input's magnitude or one more. *)
Lemma binary_round_aux_normal (s : bool) (m e : Z) (l : location) :
  0 < m -> prec <= Zdigits2 m -> d_emin <= Zdigits2 m + e - prec ->
  exists m' e',
    Zpos (digits2_pos m') = prec /\
    Zdigits2 m + e <= e' + prec <= Zdigits2 m + e + 1 /\
    binary_round_aux prec emax s m e l =
      if e' <=? emax - prec then S754_finite s m' e' else S754_infinity s.
Proof.
  intros Hm Hd He. destruct (locates_any m l) as [N HN].
  destruct (binary_round_aux_accurate s m e l N 4 Hm Hd He ltac:(lia) HN)
    as (m' & e' & Hd' & Hb & _ & _ & _ & E).
  exists m', e'. auto.
Qed.

(** Trailing zero bits do not change the rounding of a mantissa that has
    at least [prec] digits. *)
Lemma shr_fexp_scale (m e k : Z) :
  0 < m -> prec <= Zdigits2 m -> 0 <= k ->
  shr_fexp prec emax (m * 2 ^ k) (e - k) loc_Exact = shr_fexp prec emax m e loc_Exact.
Proof.
  intros Hm Hd Hk. unfold shr_fexp.
  rewrite Zdigits2_mul_pow2 by assumption.
  replace (Zdigits2 m + k + (e - k)) with (Zdigits2 m + e) by lia.
  set (n := fexp prec emax (Zdigits2 m + e) - e).
  assert (Hn : 0 <= n) by (unfold n, fexp; lia).
  replace (fexp prec emax (Zdigits2 m + e) - (e - k)) with (n + k) by (unfold n; lia).
  cbn [shr_record_of_loc]. fold (exact_record (m * 2 ^ k)). fold (exact_record m).
  rewrite !shr_nat by lia.
  rewrite Z2Nat.inj_add, Nat.iter_add by lia.
  replace (m * 2 ^ k) with (m * 2 ^ Z.of_nat (Z.to_nat k))
    by (rewrite Z2Nat.id by lia; reflexivity).
  rewrite iter_shr_1_exact by lia.
  replace (e - k + (n + k)) with (e + n) by lia.
  reflexivity.
Qed.

Lemma binary_round_aux_scale (s : bool) (m e k : Z) :
  0 < m -> prec <= Zdigits2 m -> 0 <= k ->
  binary_round_aux prec emax s (m * 2 ^ k) (e - k) loc_Exact =
  binary_round_aux prec emax s m e loc_Exact.
Proof.
  intros Hm Hd Hk. unfold binary_round_aux.
  rewrite shr_fexp_scale by assumption. reflexivity.
Qed.

(** A mantissa of exactly [prec] digits is kept as it is. *)
Lemma binary_round_aux_canonical (s : bool) (m : positive) (e : Z) :
  Zpos (digits2_pos m) = prec -> d_emin <= e -> e <= emax - prec ->
  binary_round_aux prec emax s (Zpos m) e loc_Exact = S754_finite s m e.
Proof.
  intros Hd Hlo Hhi. unfold binary_round_aux, shr_fexp.
  cbn [shr_record_of_loc Zdigits2]. rewrite Hd.
  rewrite (fexp_normal (prec + e)) by lia.
  replace (prec + e - prec - e) with 0 by lia.
  cbn [shr shr_m loc_of_shr_record round_nearest_even Zdigits2]. rewrite Hd.
  rewrite (fexp_normal (prec + e)) by lia.
  replace (prec + e - prec - e) with 0 by lia.
  cbn [shr shr_m shr_record_of_loc].
  replace (e <=? emax - prec) with true by (symmetry; apply Z.leb_le; lia).
  reflexivity.
Qed.

Lemma binary_round_padding (s : bool) (p : positive) :
  binary_round prec emax s p 0 =
  binary_round_aux prec emax s (Zpos p * 2 ^ padding p) (- padding p) loc_Exact.
Proof.
  unfold binary_round, shl_align, padding.
  rewrite (fexp_normal (Zpos (digits2_pos p) + 0))
    by (unfold d_emin, emin, prec, emax; lia).
  destruct (Zpos (digits2_pos p) + 0 - prec - 0) as [|k|k] eqn:Hk.
  - replace (Z.max 0 (prec - Zpos (digits2_pos p))) with 0 by lia.
    rewrite Z.mul_1_r. reflexivity.
  - replace (Z.max 0 (prec - Zpos (digits2_pos p))) with 0 by lia.
    rewrite Z.mul_1_r. reflexivity.
  - replace (Z.max 0 (prec - Zpos (digits2_pos p))) with (Zpos k) by lia.
    rewrite iter_xO_pow2.
    replace (Zpos (digits2_pos p) + 0 - prec) with (- Zpos k) by lia.
    reflexivity.
Qed.

(** ** Normal doubles and the operations on them *)

Lemma normal_weaken s lo hi lo' hi' x :
  normal s lo hi x -> lo' <= lo -> hi <= hi' -> normal s lo' hi' x.
Proof.
  intros (m & e & -> & Hd & Hb) Hlo Hhi. exists m, e. repeat split; try assumption; lia.
Qed.

Lemma normal_is_finite s lo hi x : normal s lo hi x -> is_finite x = true.
Proof. intros (m & e & -> & _). reflexivity. Qed.

Lemma normal_positive lo hi x : normal false lo hi x -> dlt d_zero x = true.
Proof. intros (m & e & -> & _). reflexivity. Qed.

Lemma normal_negative lo hi x : normal true lo hi x -> dlt d_zero x = false.
Proof. intros (m & e & -> & _). reflexivity. Qed.

Lemma round_result_normal (s : bool) (m e : Z) (l : location) (lo hi : Z) :
  0 < m -> prec <= Zdigits2 m -> d_emin <= Zdigits2 m + e - prec ->
  lo <= Zdigits2 m + e -> Zdigits2 m + e + 1 <= hi -> hi <= emax ->
  normal s lo hi (binary_round_aux prec emax s m e l).
Proof.
  intros Hm Hd He Hlo Hhi Hmax.
  destruct (binary_round_aux_normal s m e l Hm Hd He) as (m' & e' & Hd' & Hb & ->).
  replace (e' <=? emax - prec) with true by (symmetry; apply Z.leb_le; lia).
  exists m', e'. repeat split; try assumption; lia.
Qed.

Lemma dmul_normal sx sy a1 b1 a2 b2 x y :
  normal sx a1 b1 x -> normal sy a2 b2 y ->
  d_emin + prec + 1 <= a1 + a2 -> b1 + b2 + 1 <= emax ->
  normal (xorb sx sy) (a1 + a2 - 1) (b1 + b2 + 1) (dmul x y).
Proof.
  intros (mx & ex & -> & Hdx & Hbx) (my & ey & -> & Hdy & Hby) Hlo Hhi.
  unfold dmul, SFmul.
  pose proof (Zdigits2_mul (Zpos mx) (Zpos my) eq_refl eq_refl) as Hd.
  change (Zdigits2 (Zpos mx)) with (Zpos (digits2_pos mx)) in Hd.
  change (Zdigits2 (Zpos my)) with (Zpos (digits2_pos my)) in Hd.
  rewrite Hdx, Hdy in Hd. change (Z.pos mx * Z.pos my) with (Zpos (mx * my)) in Hd.
  apply round_result_normal; params.
Qed.

Lemma cond_Zopp_abs (s : bool) (z : Z) : Z.abs (cond_Zopp s z) = Z.abs z.
Proof. destruct s; cbn [cond_Zopp]; lia. Qed.

Lemma cond_Zopp_mul (s1 s2 : bool) (a b : Z) :
  cond_Zopp s1 a * cond_Zopp s2 b = cond_Zopp (xorb s1 s2) (a * b).
Proof. destruct s1, s2; cbn [cond_Zopp xorb]; lia. Qed.

Lemma cond_Zopp_xorb_sub (s1 s2 : bool) (a b : Z) :
  Z.abs (cond_Zopp (xorb (xorb s1 s2) s2) a - cond_Zopp s1 b) = Z.abs (a - b).
Proof. destruct s1, s2; cbn [cond_Zopp xorb]; lia. Qed.

(** The double quotient of two normal doubles, when it falls in the normal
    range, is a normal double within half a unit in the last place of the
    exact quotient: [2 |z * y - x| <= ulp z * |y|] on the exact values. *)
Lemma ddiv_accurate sx sy a1 b1 a2 b2 x y :
  normal sx a1 b1 x -> normal sy a2 b2 y ->
  d_emin + prec <= a1 -> d_emin + prec <= a2 ->
  d_emin + prec <= a1 - b2 -> b1 - a2 + 2 <= emax ->
  normal (xorb sx sy) (a1 - b2) (b1 - a2 + 2) (ddiv x y) /\
  2 * Z.abs (scaled (ddiv x y) * scaled y - scaled x * 2 ^ (- d_emin))
    <= ulp (ddiv x y) * Z.abs (scaled y) /\
  (binade_start (ddiv x y) = true ->
   4 * (Z.abs (scaled (ddiv x y)) * Z.abs (scaled y) - Z.abs (scaled x) * 2 ^ (- d_emin))
     <= ulp (ddiv x y) * Z.abs (scaled y)).
Proof.
  intros (mx & ex & -> & Hdx & Hbx) (my & ey & -> & Hdy & Hby) Hx Hy Hlo Hhi.
  unfold ddiv, SFdiv, SFdiv_core_binary.
  change (Zdigits2 (Zpos mx)) with (Zpos (digits2_pos mx)).
  change (Zdigits2 (Zpos my)) with (Zpos (digits2_pos my)).
  rewrite Hdx, Hdy.
  rewrite (fexp_normal (prec + ex - (prec + ey))) by params.
  replace (Z.min (prec + ex - (prec + ey) - prec) (ex - ey)) with (ex - ey - prec)
    by (unfold prec; lia).
  replace (ex - ey - (ex - ey - prec)) with 53 by (unfold prec; lia).
  cbv iota.
  pose proof (Zdigits2_bounds (Zpos mx) eq_refl) as Hmx.
  pose proof (Zdigits2_bounds (Zpos my) eq_refl) as Hmy.
  change (Zdigits2 (Zpos mx)) with (Zpos (digits2_pos mx)) in Hmx.
  change (Zdigits2 (Zpos my)) with (Zpos (digits2_pos my)) in Hmy.
  rewrite Hdx in Hmx. rewrite Hdy in Hmy.
  rewrite Z.shiftl_mul_pow2 by lia.
  pose proof (Z_div_mod (Z.pos mx * 2 ^ 53) (Zpos my) eq_refl) as Hdm.
  destruct (Z.div_eucl (Z.pos mx * 2 ^ 53) (Z.pos my)) as [q r].
  destruct Hdm as [Hq Hr].
  change (2 ^ (prec - 1)) with 4503599627370496 in *.
  change (2 ^ prec) with 9007199254740992 in *.
  change (2 ^ 53) with 9007199254740992 in *.
  assert (Hqb : 4503599627370496 <= q < 18014398509481984) by nia.
  assert (Hdq : 53 <= Zdigits2 q <= 54).
  { destruct (Z_lt_le_dec q 9007199254740992).
    - rewrite (Zdigits2_unique q 53); [lia| |lia].
      change (2 ^ (53 - 1)) with 4503599627370496.
      change (2 ^ 53) with 9007199254740992. lia.
    - rewrite (Zdigits2_unique q 54); [lia| |lia].
      change (2 ^ (54 - 1)) with 9007199254740992.
      change (2 ^ 54) with 18014398509481984. lia. }
  pose proof (locates_new_location q r (Zpos my) Hr) as Hloc.
  replace (q * Zpos my + r) with (Zpos mx * 9007199254740992) in Hloc by lia.
  destruct (binary_round_aux_accurate (xorb sx sy) q (ex - ey - prec)
              (new_location (Zpos my) r) (Zpos mx * 9007199254740992) (Zpos my))
    as (m' & e' & Hd' & Hb' & He' & Hacc & Htight & ->);
    [lia | unfold prec; lia | params | lia | exact Hloc |].
  replace (e' <=? emax - prec) with true
    by (symmetry; apply Z.leb_le; unfold prec, emax in *; lia).
  split; [exists m', e'; repeat split; try assumption; unfold prec in *; lia|].
  set (P := 2 ^ (e' - (ex - ey - prec))) in *.
  set (K := 2 ^ (ex - prec - d_emin - d_emin)).
  assert (HK : 0 < K) by (apply Z.pow_pos_nonneg; params).
  assert (HP : 0 < P) by (apply Z.pow_pos_nonneg; lia).
  assert (E1 : 2 ^ (e' - d_emin) * 2 ^ (ey - d_emin) = P * K).
  { unfold P, K. rewrite <- !Z.pow_add_r by params. f_equal. lia. }
  assert (E2 : 2 ^ (ex - d_emin) * 2 ^ (- d_emin) = 9007199254740992 * K).
  { unfold K. change 9007199254740992 with (2 ^ prec).
    rewrite <- !Z.pow_add_r by params. f_equal. lia. }
  assert (EA : Zpos m' * 2 ^ (e' - d_emin) * (Zpos my * 2 ^ (ey - d_emin))
               = Zpos m' * (P * Zpos my) * K).
  { replace (Zpos m' * 2 ^ (e' - d_emin) * (Zpos my * 2 ^ (ey - d_emin)))
      with (Zpos m' * Zpos my * (2 ^ (e' - d_emin) * 2 ^ (ey - d_emin))) by ring.
    rewrite E1. ring. }
  assert (EB : Zpos mx * 2 ^ (ex - d_emin) * 2 ^ (- d_emin)
               = Zpos mx * 9007199254740992 * K).
  { rewrite <- Z.mul_assoc, E2. ring. }
  assert (EC : 2 ^ (e' - d_emin) * (Zpos my * 2 ^ (ey - d_emin)) = P * Zpos my * K).
  { replace (2 ^ (e' - d_emin) * (Zpos my * 2 ^ (ey - d_emin)))
      with (Zpos my * (2 ^ (e' - d_emin) * 2 ^ (ey - d_emin))) by ring.
    rewrite E1. ring. }
  assert (Ey : 0 < 2 ^ (ey - d_emin)) by (apply Z.pow_pos_nonneg; params).
  assert (Ex : 0 < 2 ^ (ex - d_emin)) by (apply Z.pow_pos_nonneg; params).
  assert (Ez : 0 < 2 ^ (e' - d_emin)) by (apply Z.pow_pos_nonneg; params).
  cbn [scaled ulp binade_start]. rewrite !cond_Zopp_abs.
  rewrite (Z.abs_eq (Zpos my * 2 ^ (ey - d_emin))) by nia.
  rewrite (Z.abs_eq (Zpos mx * 2 ^ (ex - d_emin))) by nia.
  rewrite (Z.abs_eq (Zpos m' * 2 ^ (e' - d_emin))) by nia.
  rewrite EA, EB, EC. split.
  - rewrite cond_Zopp_mul.
    replace (cond_Zopp sx (Zpos mx * 2 ^ (ex - d_emin)) * 2 ^ (- d_emin))
      with (cond_Zopp sx (Zpos mx * 2 ^ (ex - d_emin) * 2 ^ (- d_emin)))
      by (destruct sx; cbn [cond_Zopp]; ring).
    rewrite cond_Zopp_xorb_sub, EA, EB.
    rewrite <- Z.mul_sub_distr_r, Z.abs_mul, (Z.abs_eq K) by lia.
    rewrite Z.mul_assoc. apply Z.mul_le_mono_nonneg_r; lia.
  - intros Hstart. apply Z.eqb_eq in Hstart. specialize (Htight Hstart).
    rewrite <- Z.mul_sub_distr_r, Z.mul_assoc.
    apply Z.mul_le_mono_nonneg_r; lia.
Qed.

Lemma ddiv_normal sx sy a1 b1 a2 b2 x y :
  normal sx a1 b1 x -> normal sy a2 b2 y ->
  d_emin + prec <= a1 -> d_emin + prec <= a2 ->
  d_emin + prec <= a1 - b2 -> b1 - a2 + 2 <= emax ->
  normal (xorb sx sy) (a1 - b2) (b1 - a2 + 2) (ddiv x y).
Proof. intros Hx Hy H1 H2 H3 H4. apply (ddiv_accurate _ _ _ _ _ _ _ _ Hx Hy H1 H2 H3 H4). Qed.

Lemma binary_round_normal (s : bool) (p : positive) :
  Zpos (digits2_pos p) + 1 <= emax ->
  normal s (Zpos (digits2_pos p)) (Zpos (digits2_pos p) + 1)
         (binary_round prec emax s p 0).
Proof.
  intros Hhi. unfold binary_round, shl_align.
  set (d := Zpos (digits2_pos p)) in *.
  rewrite (fexp_normal (d + 0)) by (unfold d, d_emin, emin, prec, emax; lia).
  pose proof (Zdigits2_bounds (Zpos p) eq_refl) as Hb.
  change (Zdigits2 (Zpos p)) with d in Hb.
  destruct (d + 0 - prec - 0) as [|k|k] eqn:Hk.
  - apply round_result_normal; change (Zdigits2 (Zpos p)) with d; params.
  - apply round_result_normal; change (Zdigits2 (Zpos p)) with d; params.
  - assert (Hdk : Zdigits2 (Zpos (Pos.iter xO p k)) = prec).
    { apply Zdigits2_unique; [|unfold prec; lia].
      rewrite iter_xO_pow2.
      assert (Hk2 : 0 < 2 ^ Zpos k) by (apply Z.pow_pos_nonneg; lia).
      assert (E1 : 2 ^ (prec - 1) = 2 ^ (d - 1) * 2 ^ Zpos k).
      { rewrite <- Z.pow_add_r by lia. f_equal. lia. }
      assert (E2 : 2 ^ prec = 2 ^ d * 2 ^ Zpos k).
      { rewrite <- Z.pow_add_r by lia. f_equal. lia. }
      rewrite E1, E2. split.
      - apply Z.mul_le_mono_nonneg_r; lia.
      - apply Z.mul_lt_mono_pos_r; lia. }
    apply round_result_normal; rewrite ?Hdk; params.
Qed.

Lemma double_of_Z_normal (z : Z) :
  z <> 0 -> Zdigits2 z + 1 <= emax ->
  normal (z <? 0) (Zdigits2 z) (Zdigits2 z + 1) (double_of_Z z).
Proof.
  intros Hz Hd. destruct z as [|p|p]; [congruence| |];
    apply binary_round_normal; exact Hd.
Qed.

Lemma double_of_Z_int_normal (z : Z) :
  in_int z -> z <> 0 -> normal (z <? 0) 1 33 (double_of_Z z).
Proof.
  intros Hz Hnz. pose proof (Zdigits2_int z Hz Hnz).
  eapply normal_weaken; [apply double_of_Z_normal; [assumption|unfold emax; lia] | lia | lia].
Qed.

Lemma double_of_Z_finite (z : Z) : in_int z -> is_finite (double_of_Z z) = true.
Proof.
  intros Hz. destruct (Z.eq_dec z 0) as [->|Hnz]; [reflexivity|].
  eapply normal_is_finite, double_of_Z_int_normal; assumption.
Qed.

Lemma d_2_0_normal : normal false 2 2 d_2_0.
Proof. exists 4503599627370496%positive, (-51). repeat split; unfold prec; lia. Qed.

Lemma d_1000000_0_normal : normal false 20 20 d_1000000_0.
Proof. exists 8589934592000000%positive, (-33). repeat split; unfold prec; lia. Qed.

Lemma d_8000_normal : normal false 13 13 (dmul d_8_0 d_1000_0).
Proof. exists 8796093022208000%positive, (-40). repeat split; unfold prec; lia. Qed.

(** ** Integers as doubles *)

Lemma pow2_prec : 2 ^ prec = 9007199254740992.
Proof. reflexivity. Qed.

(** An integer below [2 ^ prec] converts without rounding. *)
Lemma double_of_Z_exact (p : positive) :
  Zpos p < 2 ^ prec ->
  double_of_Z (Zpos p) =
  S754_finite false (Z.to_pos (Zpos p * 2 ^ padding p)) (- padding p) /\
  Zdigits2 (Zpos p * 2 ^ padding p) = prec.
Proof.
  intros Hp. unfold double_of_Z, binary_normalize. rewrite binary_round_padding.
  assert (Hd : Zpos (digits2_pos p) <= prec)
    by (apply (Zdigits2_le (Zpos p) prec); lia).
  assert (Hpad : padding p = prec - Zpos (digits2_pos p)) by (unfold padding; lia).
  assert (Hdig : Zdigits2 (Zpos p * 2 ^ padding p) = prec).
  { rewrite Zdigits2_mul_pow2 by lia.
    change (Zdigits2 (Zpos p)) with (Zpos (digits2_pos p)). lia. }
  split; [|exact Hdig].
  assert (Hpos : 0 < Zpos p * 2 ^ padding p).
  { apply Z.mul_pos_pos; [lia|]. apply Z.pow_pos_nonneg; lia. }
  destruct (Zpos p * 2 ^ padding p) as [|q|q] eqn:Hq; try lia.
  apply binary_round_aux_canonical.
  - exact Hdig.
  - unfold d_emin, emin, prec, emax in *. lia.
  - unfold prec, emax in *. lia.
Qed.

(** Below [2 ^ prec] the double of an integer has that integer as value. *)
Lemma double_of_Z_value (z : Z) :
  0 <= z < 2 ^ prec -> scaled (double_of_Z z) = z * 2 ^ (- d_emin).
Proof.
  intros Hz. destruct z as [|p|p]; try lia; [reflexivity|].
  destruct (double_of_Z_exact p ltac:(lia)) as [-> Hd]. cbn [scaled cond_Zopp].
  assert (Hpad : 0 <= padding p <= prec) by (unfold padding, prec; lia).
  assert (Hpos : 0 < Zpos p * 2 ^ padding p).
  { apply Z.mul_pos_pos; [lia|]. apply Z.pow_pos_nonneg; lia. }
  rewrite Z2Pos.id by assumption.
  rewrite <- Z.mul_assoc, <- Z.pow_add_r by params.
  do 2 f_equal. lia.
Qed.

(** The double product of two integers below [2 ^ prec] is the double
    nearest to their integer product. *)
Lemma dmul_double_of_Z (a b : positive) :
  Zpos a < 2 ^ prec -> Zpos b < 2 ^ prec ->
  dmul (double_of_Z (Zpos a)) (double_of_Z (Zpos b)) = double_of_Z (Zpos a * Zpos b).
Proof.
  intros Ha Hb.
  destruct (double_of_Z_exact a Ha) as [Ea Da]. destruct (double_of_Z_exact b Hb) as [Eb Db].
  rewrite Ea, Eb. unfold dmul, SFmul. cbn [xorb].
  assert (Hpa : 0 < Zpos a * 2 ^ padding a)
    by (apply Z.mul_pos_pos; [lia|]; apply Z.pow_pos_nonneg; unfold padding; lia).
  assert (Hpb : 0 < Zpos b * 2 ^ padding b)
    by (apply Z.mul_pos_pos; [lia|]; apply Z.pow_pos_nonneg; unfold padding; lia).
  rewrite Pos2Z.inj_mul, !Z2Pos.id by assumption.
  change (Zpos a * Zpos b) with (Zpos (a * b)).
  unfold double_of_Z, binary_normalize. rewrite binary_round_padding.
  set (j := padding (a * b)).
  assert (Hj : 0 <= j) by (unfold j, padding; lia).
  assert (Hja : 0 <= padding a) by (unfold padding; lia).
  assert (Hjb : 0 <= padding b) by (unfold padding; lia).
  assert (Hdab : Zpos (digits2_pos a) + Zpos (digits2_pos b) - 1 <= Zpos (digits2_pos (a * b))).
  { pose proof (Zdigits2_mul (Zpos a) (Zpos b) eq_refl eq_refl) as [H _]. exact H. }
  assert (Hda : Zpos (digits2_pos a) + padding a = prec).
  { rewrite Zdigits2_mul_pow2 in Da by lia. exact Da. }
  assert (Hdb : Zpos (digits2_pos b) + padding b = prec).
  { rewrite Zdigits2_mul_pow2 in Db by lia. exact Db. }
  assert (Hk : 0 <= padding a + padding b - j).
  { unfold j, padding in *. unfold prec in *. lia. }
  replace (Zpos a * 2 ^ padding a * (Zpos b * 2 ^ padding b))
    with (Zpos (a * b) * 2 ^ j * 2 ^ (padding a + padding b - j)).
  2:{ rewrite <- Z.mul_assoc, <- Z.pow_add_r by lia.
      replace (j + (padding a + padding b - j)) with (padding a + padding b) by lia.
      rewrite Z.pow_add_r by lia. rewrite Pos2Z.inj_mul. ring. }
  replace (- padding a + - padding b) with (- j - (padding a + padding b - j)) by lia.
  apply binary_round_aux_scale.
  - apply Z.mul_pos_pos; [lia|]. apply Z.pow_pos_nonneg; lia.
  - rewrite Zdigits2_mul_pow2 by lia.
    change (Zdigits2 (Zpos (a * b))) with (Zpos (digits2_pos (a * b))).
    unfold j, padding. lia.
  - exact Hk.
Qed.

(** The same for non-negative integers, zero included. *)
Lemma dmul_double_of_Z_nonneg (a b : Z) :
  0 <= a < 2 ^ prec -> 0 <= b < 2 ^ prec ->
  dmul (double_of_Z a) (double_of_Z b) = double_of_Z (a * b).
Proof.
  intros Ha Hb.
  destruct a as [|a|a]; try lia; destruct b as [|b|b]; try lia.
  - reflexivity.
  - destruct (double_of_Z_exact b ltac:(lia)) as [-> _]. reflexivity.
  - destruct (double_of_Z_exact a ltac:(lia)) as [-> _]. reflexivity.
  - apply dmul_double_of_Z; lia.
Qed.

(** The double quotient of two positive integers below [2 ^ prec] is within
    half a unit in the last place of their exact quotient, and does not
    exceed it by more than a quarter of a unit when it starts a binade. *)
Lemma ddiv_integers_accurate (n d : Z) :
  0 < n < 2 ^ prec -> 0 < d < 2 ^ prec ->
  normal false (- prec) (prec + 2) (ddiv (double_of_Z n) (double_of_Z d)) /\
  2 * Z.abs (scaled (ddiv (double_of_Z n) (double_of_Z d)) * d - n * 2 ^ (- d_emin))
    <= ulp (ddiv (double_of_Z n) (double_of_Z d)) * d /\
  (binade_start (ddiv (double_of_Z n) (double_of_Z d)) = true ->
   4 * (scaled (ddiv (double_of_Z n) (double_of_Z d)) * d - n * 2 ^ (- d_emin))
     <= ulp (ddiv (double_of_Z n) (double_of_Z d)) * d).
Proof.
  intros Hn Hd.
  pose proof (Zdigits2_below_prec n Hn) as Hdn.
  pose proof (Zdigits2_below_prec d Hd) as Hdd.
  assert (Nn : normal false 1 (prec + 1) (double_of_Z n)).
  { pose proof (double_of_Z_normal n) as H.
    replace (n <? 0) with false in H by (symmetry; apply Z.ltb_ge; lia).
    eapply normal_weaken; [apply H; unfold emax, prec in *; lia | lia | lia]. }
  assert (Nd : normal false 1 (prec + 1) (double_of_Z d)).
  { pose proof (double_of_Z_normal d) as H.
    replace (d <? 0) with false in H by (symmetry; apply Z.ltb_ge; lia).
    eapply normal_weaken; [apply H; unfold emax, prec in *; lia | lia | lia]. }
  destruct (ddiv_accurate _ _ _ _ _ _ _ _ Nn Nd) as (Hnorm & Hacc & Htight);
    try (unfold d_emin, emin, prec, emax; lia).
  split; [eapply normal_weaken; [exact Hnorm | unfold prec; lia | unfold prec; lia]|].
  rewrite !double_of_Z_value in Hacc, Htight by lia.
  set (K := 2 ^ (- d_emin)) in *.
  assert (HK : 0 < K) by (apply Z.pow_pos_nonneg; unfold d_emin, emin, prec, emax; lia).
  set (z := ddiv (double_of_Z n) (double_of_Z d)) in *.
  assert (Hz : 0 <= scaled z).
  { destruct Hnorm as (m & e & -> & _). cbn [scaled xorb cond_Zopp].
    apply Z.mul_nonneg_nonneg; [lia | apply Z.pow_nonneg; lia]. }
  rewrite (Z.abs_eq (d * K)) in Hacc, Htight by nia.
  rewrite (Z.abs_eq (n * K)), (Z.abs_eq (scaled z)) in Htight by nia.
  split.
  - replace (scaled z * (d * K) - n * K * K) with ((scaled z * d - n * K) * K) in Hacc by ring.
    rewrite Z.abs_mul, (Z.abs_eq K) in Hacc by lia.
    rewrite !Z.mul_assoc in Hacc.
    apply Z.mul_le_mono_pos_r in Hacc; assumption.
  - intros Hs. specialize (Htight Hs).
    replace (scaled z * (d * K) - n * K * K) with ((scaled z * d - n * K) * K) in Htight by ring.
    rewrite !Z.mul_assoc in Htight.
    apply Z.mul_le_mono_pos_r in Htight; assumption.
Qed.

(** ** Comparison and exact values *)

Lemma bounded_digits (m : positive) (e : Z) :
  bounded prec emax m e = true ->
  d_emin <= e /\ Zpos (digits2_pos m) <= prec /\
  (d_emin < e -> Zpos (digits2_pos m) = prec).
Proof.
  unfold bounded, canonical_mantissa, fexp. fold d_emin.
  intros H. apply andb_prop in H. destruct H as [H _]. apply Z.eqb_eq in H.
  unfold prec in *. lia.
Qed.

Lemma scaled_magnitude_lt (m1 m2 : positive) (e1 e2 : Z) :
  bounded prec emax m1 e1 = true -> bounded prec emax m2 e2 = true ->
  e1 < e2 ->
  Zpos m1 * 2 ^ (e1 - d_emin) < Zpos m2 * 2 ^ (e2 - d_emin).
Proof.
  intros H1 H2 He.
  destruct (bounded_digits m1 e1 H1) as (Hlo1 & Hd1 & _).
  destruct (bounded_digits m2 e2 H2) as (Hlo2 & _ & Hd2).
  specialize (Hd2 ltac:(lia)).
  pose proof (Zdigits2_bounds (Zpos m1) eq_refl) as [_ Hm1].
  pose proof (Zdigits2_bounds (Zpos m2) eq_refl) as [Hm2 _].
  change (Zdigits2 (Zpos m1)) with (Zpos (digits2_pos m1)) in Hm1.
  change (Zdigits2 (Zpos m2)) with (Zpos (digits2_pos m2)) in Hm2.
  rewrite Hd2 in Hm2.
  assert (Hm1' : Zpos m1 < 2 ^ prec).
  { eapply Z.lt_le_trans; [exact Hm1|]. apply Z.pow_le_mono_r; lia. }
  assert (Hp1 : 0 < 2 ^ (e1 - d_emin)) by (apply Z.pow_pos_nonneg; lia).
  assert (Hp2 : 0 < 2 ^ (e2 - d_emin)) by (apply Z.pow_pos_nonneg; lia).
  apply Z.lt_le_trans with (2 ^ prec * 2 ^ (e1 - d_emin)).
  - apply Z.mul_lt_mono_pos_r; assumption.
  - apply Z.le_trans with (2 ^ (prec - 1) * 2 ^ (e2 - d_emin)).
    + rewrite <- !Z.pow_add_r by (unfold prec; lia).
      apply Z.pow_le_mono_r; lia.
    + apply Z.mul_le_mono_nonneg_r; lia.
Qed.

Lemma compare_magnitude (m1 m2 : positive) (e1 e2 : Z) :
  bounded prec emax m1 e1 = true -> bounded prec emax m2 e2 = true ->
  match Z.compare e1 e2 with
  | Lt => Lt
  | Gt => Gt
  | Eq => Pos.compare_cont Eq m1 m2
  end = Z.compare (Zpos m1 * 2 ^ (e1 - d_emin)) (Zpos m2 * 2 ^ (e2 - d_emin)).
Proof.
  intros H1 H2. symmetry.
  destruct (Z.compare_spec e1 e2) as [->|Hlt|Hgt].
  - destruct (bounded_digits m2 e2 H2) as (Hlo & _).
    assert (Hp : 0 < 2 ^ (e2 - d_emin)) by (apply Z.pow_pos_nonneg; lia).
    change (Pos.compare_cont Eq m1 m2) with (Z.compare (Zpos m1) (Zpos m2)).
    destruct (Z.compare_spec (Zpos m1) (Zpos m2)) as [E|E|E].
    + rewrite E. apply Z.compare_refl.
    + apply Z.compare_lt_iff. apply Z.mul_lt_mono_pos_r; assumption.
    + apply Z.compare_gt_iff. apply Z.mul_lt_mono_pos_r; assumption.
  - apply Z.compare_lt_iff. apply scaled_magnitude_lt; assumption.
  - apply Z.compare_gt_iff. apply scaled_magnitude_lt; assumption.
Qed.

(** On valid finite doubles the comparison of the source is the comparison
    of the exact values. *)
Lemma dlt_exact (x y : double) :
  valid x = true -> valid y = true ->
  (dlt x y = true <-> scaled x < scaled y).
Proof.
  unfold valid, dlt, SFltb. intros Hx Hy.
  apply andb_prop in Hx. destruct Hx as [Vx Fx].
  apply andb_prop in Hy. destruct Hy as [Vy Fy].
  destruct x as [sx|sx| |sx mx ex]; try discriminate Fx;
  destruct y as [sy|sy| |sy my ey]; try discriminate Fy; cbn [SFcompare scaled].
  - split; [discriminate | lia].
  - assert (Hp : 0 < Zpos my * 2 ^ (ey - d_emin)).
    { apply Z.mul_pos_pos; [lia|]. apply Z.pow_pos_nonneg; [lia|].
      destruct (bounded_digits my ey Vy). lia. }
    destruct sy; cbn [cond_Zopp]; split; try discriminate; try lia; intros _; reflexivity.
  - assert (Hp : 0 < Zpos mx * 2 ^ (ex - d_emin)).
    { apply Z.mul_pos_pos; [lia|]. apply Z.pow_pos_nonneg; [lia|].
      destruct (bounded_digits mx ex Vx). lia. }
    destruct sx; cbn [cond_Zopp]; split; try discriminate; try lia; intros _; reflexivity.
  - cbn [valid_binary] in Vx, Vy.
    pose proof (compare_magnitude mx my ex ey Vx Vy) as Hc.
    assert (Hpx : 0 < Zpos mx * 2 ^ (ex - d_emin)).
    { apply Z.mul_pos_pos; [lia|]. apply Z.pow_pos_nonneg; [lia|].
      destruct (bounded_digits mx ex Vx). lia. }
    assert (Hpy : 0 < Zpos my * 2 ^ (ey - d_emin)).
    { apply Z.mul_pos_pos; [lia|]. apply Z.pow_pos_nonneg; [lia|].
      destruct (bounded_digits my ey Vy). lia. }
    destruct sx, sy; cbn [cond_Zopp].
    + (* both negative *)
      replace (match ex ?= ey with
               | Eq => CompOpp (Pos.compare_cont Eq mx my)
               | Lt => Gt
               | Gt => Lt
               end)
        with (CompOpp (match ex ?= ey with
                       | Eq => Pos.compare_cont Eq mx my
                       | Lt => Lt
                       | Gt => Gt
                       end)) by (destruct (ex ?= ey); reflexivity).
      rewrite Hc.
      destruct (Z.compare_spec (Zpos mx * 2 ^ (ex - d_emin)) (Zpos my * 2 ^ (ey - d_emin)));
        cbn [CompOpp]; split; try discriminate; try lia; intros _; reflexivity.
    + split; [intros _; lia | reflexivity].
    + split; [discriminate | lia].
    + rewrite Hc.
      destruct (Z.compare_spec (Zpos mx * 2 ^ (ex - d_emin)) (Zpos my * 2 ^ (ey - d_emin)));
        split; try discriminate; try lia; intros _; reflexivity.
Qed.

(** ** 32-bit wrap-around *)

Lemma wrap32_in_int (z : Z) : in_int (wrap32 z).
Proof.
  unfold in_int, wrap32, INT_MIN, INT_MAX.
  pose proof (Z.mod_pos_bound (z + 2 ^ 31) (2 ^ 32) eq_refl). lia.
Qed.

Lemma wrap32_small (z : Z) : in_int z -> wrap32 z = z.
Proof.
  unfold in_int, wrap32, INT_MIN, INT_MAX. intros H.
  rewrite Z.mod_small; lia.
Qed.

Lemma wrap32_mul_l (a c : Z) : wrap32 (wrap32 a * c) = wrap32 (a * c).
Proof.
  unfold wrap32. f_equal.
  rewrite (Z.mod_eq (a + 2 ^ 31) (2 ^ 32)) by lia.
  replace ((a + 2 ^ 31 - 2 ^ 32 * ((a + 2 ^ 31) / 2 ^ 32) - 2 ^ 31) * c + 2 ^ 31)
    with (a * c + 2 ^ 31 + (- ((a + 2 ^ 31) / 2 ^ 32) * c) * 2 ^ 32) by ring.
  apply Z.mod_add. lia.
Qed.

Lemma int_product (major minor multiProcessorCount clockRate : Z) :
  int_mul (totalCores major minor multiProcessorCount) clockRate =
  wrap32 (coresPerSM major minor * multiProcessorCount * clockRate).
Proof. unfold totalCores, int_mul. apply wrap32_mul_l. Qed.

Lemma getTheoreticalGFLOPS_gflops_of (major minor multiProcessorCount clockRate : Z) :
  getTheoreticalGFLOPS major minor multiProcessorCount clockRate =
  gflops_of (wrap32 (coresPerSM major minor * multiProcessorCount * clockRate)).
Proof. unfold getTheoreticalGFLOPS, gflops_of. rewrite int_product. reflexivity. Qed.

Lemma coresPerSM_bounds (major minor : Z) : 32 <= coresPerSM major minor <= 192.
Proof.
  unfold coresPerSM.
  repeat match goal with |- context [if ?b then _ else _] => destruct b end; lia.
Qed.

(** ** The throughput estimate *)

Lemma gflops_of_normal (n : Z) :
  in_int n -> n <> 0 -> normal (n <? 0) (-18) 18 (gflops_of n).
Proof.
  intros Hn Hnz. unfold gflops_of.
  pose proof (dmul_normal _ _ _ _ _ _ _ _ (double_of_Z_int_normal n Hn Hnz) d_2_0_normal
                ltac:(params) ltac:(params)) as H1.
  rewrite xorb_false_r in H1.
  pose proof (ddiv_normal _ _ _ _ _ _ _ _ H1 d_1000000_0_normal
                ltac:(params) ltac:(params) ltac:(params) ltac:(params)) as H2.
  rewrite xorb_false_r in H2.
  eapply normal_weaken; [exact H2 | lia | lia].
Qed.

(** The throughput estimate is a zero or a normal double with the sign of
    the wrapped product. *)
Lemma gflops_of_finite (n : Z) : in_int n -> is_finite (gflops_of n) = true.
Proof.
  intros Hn. destruct (Z.eq_dec n 0) as [->|Hnz]; [reflexivity|].
  eapply normal_is_finite, gflops_of_normal; assumption.
Qed.

Lemma gflops_of_quotient (n : Z) :
  0 <= n <= INT_MAX ->
  gflops_of n = ddiv (double_of_Z (n * 2)) (double_of_Z 1000000).
Proof.
  unfold INT_MAX. intros Hn. unfold gflops_of.
  change d_2_0 with (double_of_Z 2). change d_1000000_0 with (double_of_Z 1000000).
  rewrite dmul_double_of_Z_nonneg by (rewrite pow2_prec; lia).
  reflexivity.
Qed.

(** The throughput estimate computed from a product that fits in an [int]
    is within half a unit in the last place of [product x 2 / 1e6]. *)
Lemma gflops_of_accurate (n : Z) :
  0 < n <= INT_MAX ->
  2 * Z.abs (scaled (gflops_of n) * 1000000 - n * 2 * 2 ^ (- d_emin))
    <= ulp (gflops_of n) * 1000000.
Proof.
  intros Hn. rewrite gflops_of_quotient by lia.
  apply ddiv_integers_accurate; rewrite pow2_prec; unfold INT_MAX in *; lia.
Qed.

(** ** The bandwidth estimate *)

Lemma dmul_zero_l (s : bool) (y : double) :
  is_finite y = true -> is_zero (dmul (S754_zero s) y).
Proof. destruct y; try discriminate; intros _; eexists; reflexivity. Qed.

Lemma dmul_zero_r (x : double) (s : bool) :
  is_finite x = true -> is_zero (dmul x (S754_zero s)).
Proof. destruct x; try discriminate; intros _; eexists; reflexivity. Qed.

Lemma ddiv_zero_normal (x y : double) s lo hi :
  is_zero x -> normal s lo hi y -> is_zero (ddiv x y).
Proof. intros [sx ->] (m & e & -> & _). eexists; reflexivity. Qed.

Lemma is_zero_finite (x : double) : is_zero x -> is_finite x = true.
Proof. intros [s ->]. reflexivity. Qed.

Lemma is_zero_not_positive (x : double) : is_zero x -> dlt d_zero x = false.
Proof. intros [s ->]. reflexivity. Qed.

Lemma bandwidth_zero (memoryClockRate memoryBusWidth : Z) :
  in_int memoryClockRate -> in_int memoryBusWidth ->
  memoryClockRate = 0 \/ memoryBusWidth = 0 ->
  is_zero (getMemoryBandwidth memoryClockRate memoryBusWidth).
Proof.
  intros Hc Hw Hz. unfold getMemoryBandwidth.
  eapply ddiv_zero_normal; [|apply d_8000_normal].
  destruct Hz as [-> | ->].
  - apply dmul_zero_l, double_of_Z_finite; assumption.
  - apply dmul_zero_r.
    destruct (Z.eq_dec memoryClockRate 0) as [->|Hnz]; [reflexivity|].
    eapply normal_is_finite, dmul_normal;
      [apply double_of_Z_int_normal; assumption | apply d_2_0_normal | |];
      vm_compute; discriminate.
Qed.

Lemma bandwidth_normal (memoryClockRate memoryBusWidth : Z) :
  in_int memoryClockRate -> in_int memoryBusWidth ->
  memoryClockRate <> 0 -> memoryBusWidth <> 0 ->
  normal (xorb (memoryClockRate <? 0) (memoryBusWidth <? 0)) (-11) 59
         (getMemoryBandwidth memoryClockRate memoryBusWidth).
Proof.
  intros Hc Hw Hcz Hwz. unfold getMemoryBandwidth.
  pose proof (dmul_normal _ _ _ _ _ _ _ _
                (double_of_Z_int_normal _ Hc Hcz) d_2_0_normal
                ltac:(params) ltac:(params)) as H1.
  rewrite xorb_false_r in H1.
  pose proof (dmul_normal _ _ _ _ _ _ _ _ H1 (double_of_Z_int_normal _ Hw Hwz)
                ltac:(params) ltac:(params)) as H2.
  pose proof (ddiv_normal _ _ _ _ _ _ _ _ H2 d_8000_normal
                ltac:(params) ltac:(params) ltac:(params) ltac:(params)) as H3.
  rewrite xorb_false_r in H3.
  eapply normal_weaken; [exact H3 | lia | lia].
Qed.

Lemma bandwidth_finite (memoryClockRate memoryBusWidth : Z) :
  in_int memoryClockRate -> in_int memoryBusWidth ->
  is_finite (getMemoryBandwidth memoryClockRate memoryBusWidth) = true.
Proof.
  intros Hc Hw.
  destruct (Z.eq_dec memoryClockRate 0) as [Hcz|Hcz].
  { apply is_zero_finite, bandwidth_zero; auto. }
  destruct (Z.eq_dec memoryBusWidth 0) as [Hwz|Hwz].
  { apply is_zero_finite, bandwidth_zero; auto. }
  eapply normal_is_finite, bandwidth_normal; assumption.
Qed.

Lemma bandwidth_positive_normal (memoryClockRate memoryBusWidth : Z) :
  in_int memoryClockRate -> in_int memoryBusWidth ->
  dlt d_zero (getMemoryBandwidth memoryClockRate memoryBusWidth) = true ->
  normal false (-11) 59 (getMemoryBandwidth memoryClockRate memoryBusWidth).
Proof.
  intros Hc Hw Hpos.
  destruct (Z.eq_dec memoryClockRate 0) as [Hcz|Hcz].
  { rewrite is_zero_not_positive in Hpos by (apply bandwidth_zero; auto). discriminate. }
  destruct (Z.eq_dec memoryBusWidth 0) as [Hwz|Hwz].
  { rewrite is_zero_not_positive in Hpos by (apply bandwidth_zero; auto). discriminate. }
  pose proof (bandwidth_normal _ _ Hc Hw Hcz Hwz) as Hn.
  destruct (xorb (memoryClockRate <? 0) (memoryBusWidth <? 0)); [|exact Hn].
  rewrite (normal_negative _ _ _ Hn) in Hpos. discriminate.
Qed.

Lemma bandwidth_quotient (memoryClockRate memoryBusWidth : Z) :
  0 <= memoryClockRate <= INT_MAX -> 0 <= memoryBusWidth <= INT_MAX ->
  getMemoryBandwidth memoryClockRate memoryBusWidth =
  ddiv (double_of_Z (memoryClockRate * 2 * memoryBusWidth)) (double_of_Z 8000).
Proof.
  unfold INT_MAX. intros Hc Hw. unfold getMemoryBandwidth.
  change d_2_0 with (double_of_Z 2).
  replace (dmul d_8_0 d_1000_0) with (double_of_Z 8000) by (vm_compute; reflexivity).
  rewrite !dmul_double_of_Z_nonneg by (rewrite pow2_prec; lia).
  reflexivity.
Qed.

(** The bandwidth estimate is within half a unit in the last place of
    [mem_clock x 2 x bus_width / 8000]. *)
Lemma bandwidth_accurate (memoryClockRate memoryBusWidth : Z) :
  0 < memoryClockRate <= INT_MAX -> 0 < memoryBusWidth <= INT_MAX ->
  memoryClockRate * 2 * memoryBusWidth < 2 ^ prec ->
  2 * Z.abs (scaled (getMemoryBandwidth memoryClockRate memoryBusWidth) * 8000
             - memoryClockRate * 2 * memoryBusWidth * 2 ^ (- d_emin))
    <= ulp (getMemoryBandwidth memoryClockRate memoryBusWidth) * 8000.
Proof.
  intros Hc Hw Hb. rewrite bandwidth_quotient by lia.
  apply ddiv_integers_accurate; [nia | rewrite pow2_prec; lia].
Qed.

(** ** The ridge point *)

(** The ridge point of a normal throughput and a positive normal bandwidth
    in the ranges of the two estimates: a normal double with the sign of
    the throughput, within half a unit in the last place of the exact
    quotient. *)
Lemma ridge_accurate (g b : double) (s : bool) :
  normal s (-18) 18 g -> normal false (-11) 59 b ->
  normal s (-77) 31 (calculateBoundaryArithmeticIntensity g b) /\
  2 * Z.abs (scaled (calculateBoundaryArithmeticIntensity g b) * scaled b
             - scaled g * 2 ^ (- d_emin))
    <= ulp (calculateBoundaryArithmeticIntensity g b) * Z.abs (scaled b).
Proof.
  intros Hg Hb. unfold calculateBoundaryArithmeticIntensity.
  destruct (ddiv_accurate _ _ _ _ _ _ _ _ Hg Hb
              ltac:(params) ltac:(params) ltac:(params) ltac:(params)) as (H1 & H2 & _).
  rewrite xorb_false_r in H1. split; assumption.
Qed.

Lemma ridge_sign (g b : double) (s : bool) :
  normal s (-18) 18 g -> normal false (-11) 59 b ->
  normal s (-77) 31 (calculateBoundaryArithmeticIntensity g b).
Proof. intros Hg Hb. apply (ridge_accurate g b s Hg Hb). Qed.

(** ** Order of normal doubles *)

Lemma normal_fields s lo hi x :
  normal s lo hi x -> d_emin + prec <= lo ->
  exists m a,
    0 <= a /\ 2 ^ (prec - 1) <= m < 2 ^ prec /\
    Z.abs (scaled x) = m * 2 ^ a /\ ulp x = 2 ^ a /\
    (binade_start x = true <-> m = 2 ^ (prec - 1)) /\
    scaled x = cond_Zopp s (m * 2 ^ a).
Proof.
  intros (m & e & -> & Hd & Hb) Hlo.
  pose proof (Zdigits2_bounds (Zpos m) eq_refl) as Hm.
  change (Zdigits2 (Zpos m)) with (Zpos (digits2_pos m)) in Hm. rewrite Hd in Hm.
  exists (Zpos m), (e - d_emin). cbn [scaled ulp binade_start].
  assert (0 < 2 ^ (e - d_emin)) by (apply Z.pow_pos_nonneg; lia).
  split; [lia|]. split; [lia|]. split.
  { rewrite cond_Zopp_abs. apply Z.abs_eq. nia. }
  split; [reflexivity|]. split; [apply Z.eqb_eq | reflexivity].
Qed.

(** Two normal doubles in increasing order are at least as far apart as
    the midpoints above the lower and below the upper one. *)
Lemma normal_spacing lo1 hi1 lo2 hi2 (z1 z2 : double) :
  normal false lo1 hi1 z1 -> normal false lo2 hi2 z2 ->
  d_emin + prec <= lo1 -> d_emin + prec <= lo2 ->
  scaled z2 < scaled z1 ->
  2 * ulp z2 + lower_gap4 z1 <= 4 * (scaled z1 - scaled z2).
Proof.
  intros N1 N2 H1 H2 Hlt. unfold lower_gap4.
  destruct (normal_fields _ _ _ _ N1 H1) as (m1 & a1 & Ha1 & Hm1 & _ & -> & Hs1 & E1).
  destruct (normal_fields _ _ _ _ N2 H2) as (m2 & a2 & Ha2 & Hm2 & _ & -> & _ & E2).
  cbn [cond_Zopp] in E1, E2. rewrite E1, E2 in *.
  change (2 ^ (prec - 1)) with 4503599627370496 in *.
  change (2 ^ prec) with 9007199254740992 in *.
  assert (P1 : 0 < 2 ^ a1) by (apply Z.pow_pos_nonneg; lia).
  assert (P2 : 0 < 2 ^ a2) by (apply Z.pow_pos_nonneg; lia).
  destruct (Z_lt_le_dec a1 a2) as [Hlt12|Hge].
  - (* the smaller double cannot have the larger exponent *)
    exfalso.
    assert (E : 2 ^ a2 = 2 ^ (a2 - a1 - 1) * 2 * 2 ^ a1).
    { replace a2 with ((a2 - a1 - 1) + 1 + a1) at 1 by lia.
      rewrite !Z.pow_add_r by lia. reflexivity. }
    assert (0 < 2 ^ (a2 - a1 - 1)) by (apply Z.pow_pos_nonneg; lia).
    rewrite E in Hlt. nia.
  - destruct (Z.eq_dec a1 a2) as [->|Hne].
    + set (U := 2 ^ a2) in *.
      assert (Hm : m2 < m1) by (apply Z.mul_lt_mono_pos_r with U; assumption).
      assert (U * 1 <= U * (m1 - m2)) by (apply Z.mul_le_mono_nonneg_l; lia).
      destruct (binade_start z1); lia.
    + assert (E : 2 ^ a1 = 2 ^ (a1 - a2 - 1) * 2 * 2 ^ a2).
      { replace a1 with ((a1 - a2 - 1) + 1 + a2) at 1 by lia.
        rewrite !Z.pow_add_r by lia. reflexivity. }
      assert (HT : 0 < 2 ^ (a1 - a2 - 1)) by (apply Z.pow_pos_nonneg; lia).
      rewrite E in *. set (T := 2 ^ (a1 - a2 - 1)) in *. set (U := 2 ^ a2) in *.
      destruct (binade_start z1) eqn:Hb.
      * assert (m1 = 4503599627370496) by (apply Hs1; reflexivity). subst m1. nia.
      * assert (m1 <> 4503599627370496).
        { intros Hm. apply Hs1 in Hm. congruence. }
        nia.
Qed.

Lemma normal_scaled_pos lo hi x :
  normal false lo hi x -> d_emin + prec <= lo -> 0 < scaled x.
Proof.
  intros N Hlo.
  destruct (normal_fields _ _ _ _ N Hlo) as (m & a & Ha & Hm & _ & _ & _ & ->).
  cbn [cond_Zopp]. assert (0 < 2 ^ a) by (apply Z.pow_pos_nonneg; lia).
  change (2 ^ (prec - 1)) with 4503599627370496 in Hm. nia.
Qed.

(** A normal double is determined by its exact value. *)
Lemma normal_scaled_inj lo1 hi1 lo2 hi2 (x1 x2 : double) :
  normal false lo1 hi1 x1 -> normal false lo2 hi2 x2 ->
  d_emin + prec <= lo1 -> d_emin + prec <= lo2 ->
  scaled x1 = scaled x2 -> x1 = x2.
Proof.
  intros (m1 & e1 & -> & Hd1 & Hb1) (m2 & e2 & -> & Hd2 & Hb2) H1 H2.
  cbn [scaled cond_Zopp]. intros E.
  pose proof (Zdigits2_bounds (Zpos m1) eq_refl) as Hm1.
  pose proof (Zdigits2_bounds (Zpos m2) eq_refl) as Hm2.
  change (Zdigits2 (Zpos m1)) with (Zpos (digits2_pos m1)) in Hm1.
  change (Zdigits2 (Zpos m2)) with (Zpos (digits2_pos m2)) in Hm2.
  rewrite Hd1 in Hm1. rewrite Hd2 in Hm2.
  change (2 ^ (prec - 1)) with 4503599627370496 in *.
  change (2 ^ prec) with 9007199254740992 in *.
  assert (Hstep : forall a b ma mb, 0 <= a < b ->
            4503599627370496 <= mb -> ma < 9007199254740992 ->
            ma * 2 ^ a <> mb * 2 ^ b).
  { intros a b ma mb Hab Hmb Hma.
    replace b with ((b - a - 1) + 1 + a) by lia.
    rewrite !Z.pow_add_r by lia. change (2 ^ 1) with 2.
    assert (HT : 0 < 2 ^ (b - a - 1)) by (apply Z.pow_pos_nonneg; lia).
    assert (HU : 0 < 2 ^ a) by (apply Z.pow_pos_nonneg; lia).
    set (T := 2 ^ (b - a - 1)) in *. set (U := 2 ^ a) in *.
    assert (ma * U < 9007199254740992 * U) by (apply Z.mul_lt_mono_pos_r; lia).
    assert (mb * 2 * 1 <= mb * 2 * T) by (apply Z.mul_le_mono_nonneg_l; lia).
    assert (9007199254740992 * U <= mb * 2 * T * U)
      by (apply Z.mul_le_mono_nonneg_r; lia).
    lia. }
  destruct (Z.lt_trichotomy e1 e2) as [Hlt|[Heq|Hgt]].
  - exfalso. apply (Hstep (e1 - d_emin) (e2 - d_emin) (Zpos m1) (Zpos m2)); lia.
  - subst e2. assert (0 < 2 ^ (e1 - d_emin)) by (apply Z.pow_pos_nonneg; lia).
    apply Z.mul_cancel_r in E; [|lia]. congruence.
  - exfalso. apply (Hstep (e2 - d_emin) (e1 - d_emin) (Zpos m2) (Zpos m1)); lia.
Qed.

(** Division by a fixed positive double is monotone. *)
Lemma ddiv_monotone a1 b1 a2 b2 (x1 x2 y : double) :
  normal false a1 b1 x1 -> normal false a1 b1 x2 -> normal false a2 b2 y ->
  d_emin + prec <= a1 -> d_emin + prec <= a2 ->
  d_emin + prec <= a1 - b2 -> b1 - a2 + 2 <= emax ->
  scaled x1 <= scaled x2 ->
  scaled (ddiv x1 y) <= scaled (ddiv x2 y).
Proof.
  intros N1 N2 Ny H1 H2 Hlo Hhi Hle.
  destruct (Z.eq_dec (scaled x1) (scaled x2)) as [E|Hne].
  { rewrite (normal_scaled_inj _ _ _ _ _ _ N1 N2 H1 H1 E). lia. }
  destruct (ddiv_accurate _ _ _ _ _ _ _ _ N1 Ny H1 H2 Hlo Hhi) as (Nz1 & A1 & T1).
  destruct (ddiv_accurate _ _ _ _ _ _ _ _ N2 Ny H1 H2 Hlo Hhi) as (Nz2 & A2 & _).
  cbn [xorb] in Nz1, Nz2.
  pose proof (normal_scaled_pos _ _ _ N1 H1) as P1.
  pose proof (normal_scaled_pos _ _ _ Ny H2) as Py.
  pose proof (normal_scaled_pos _ _ _ Nz1 Hlo) as Pz1.
  rewrite !Z.abs_eq in T1 by lia.
  destruct (Z_le_gt_dec (scaled (ddiv x1 y)) (scaled (ddiv x2 y))) as [|Hgt];
    [assumption|exfalso].
  pose proof (normal_spacing _ _ _ _ _ _ Nz1 Nz2 Hlo Hlo ltac:(lia)) as Hsp.
  set (Z1 := scaled (ddiv x1 y)) in *. set (Z2 := scaled (ddiv x2 y)) in *.
  set (Y := scaled y) in *. set (K := 2 ^ (- d_emin)) in *.
  assert (HK : 0 < K) by (apply Z.pow_pos_nonneg; unfold d_emin, emin, prec, emax; lia).
  assert (G1 : 4 * (Z1 * Y - scaled x1 * K) <= lower_gap4 (ddiv x1 y) * Y).
  { unfold lower_gap4. destruct (binade_start (ddiv x1 y)).
    - apply T1. reflexivity.
    - lia. }
  assert (G2 : 2 * (scaled x2 * K - Z2 * Y) <= ulp (ddiv x2 y) * Y) by lia.
  assert (GX : scaled x1 * K < scaled x2 * K) by (apply Z.mul_lt_mono_pos_r; lia).
  apply (Z.mul_le_mono_nonneg_r _ _ Y) in Hsp; [|lia].
  lia.
Qed.

(** ** Conversion of large integers *)

(** The double of a positive integer is within half a unit in the last
    place of it, and within a quarter below the start of a binade. *)
Lemma double_of_Z_accurate (p : positive) :
  Zdigits2 (Zpos p) + 1 <= emax ->
  2 * Z.abs (scaled (double_of_Z (Zpos p)) - Zpos p * 2 ^ (- d_emin))
    <= ulp (double_of_Z (Zpos p)) /\
  (binade_start (double_of_Z (Zpos p)) = true ->
   4 * (scaled (double_of_Z (Zpos p)) - Zpos p * 2 ^ (- d_emin))
     <= ulp (double_of_Z (Zpos p))).
Proof.
  intros Hhi. unfold double_of_Z, binary_normalize. rewrite binary_round_padding.
  change (Zdigits2 (Zpos p)) with (Zpos (digits2_pos p)) in Hhi.
  assert (Hpad : 0 <= padding p <= prec) by (unfold padding, prec; lia).
  assert (Hpow : 0 < 2 ^ padding p) by (apply Z.pow_pos_nonneg; lia).
  set (M := Zpos p * 2 ^ padding p).
  assert (HM : 0 < M) by (unfold M; lia).
  assert (Hdig : Zdigits2 M = Zpos (digits2_pos p) + padding p).
  { unfold M. rewrite Zdigits2_mul_pow2 by lia. reflexivity. }
  assert (Hloc : locates (shr_record_of_loc M loc_Exact) M 1).
  { unfold locates. cbn [shr_record_of_loc shr_m shr_r shr_s].
    intuition (try discriminate; try lia). }
  destruct (binary_round_aux_accurate false M (- padding p) loc_Exact M 1)
    as (m' & e' & Hd' & Hb & He & Hacc & Htight & E);
    [assumption | unfold padding in *; lia | unfold padding in *; params | lia
    | exact Hloc |].
  rewrite E.
  replace (e' <=? emax - prec) with true
    by (symmetry; apply Z.leb_le; unfold padding in *; lia).
  cbn [scaled ulp binade_start cond_Zopp].
  rewrite Z.mul_1_r in Hacc, Htight.
  replace (e' - - padding p) with (e' + padding p) in Hacc, Htight by lia.
  set (k := - d_emin - padding p).
  assert (Hk : 0 <= k) by (unfold k; params).
  assert (Pk : 0 < 2 ^ k) by (apply Z.pow_pos_nonneg; lia).
  assert (E1 : 2 ^ (e' - d_emin) = 2 ^ (e' + padding p) * 2 ^ k).
  { rewrite <- Z.pow_add_r by lia. f_equal. unfold k. lia. }
  assert (E2 : Zpos p * 2 ^ (- d_emin) = M * 2 ^ k).
  { unfold M. rewrite <- Z.mul_assoc, <- Z.pow_add_r by lia.
    do 2 f_equal. unfold k. lia. }
  rewrite E1, E2.
  set (A := 2 ^ (e' + padding p)) in *. set (B := 2 ^ k) in *.
  replace (Zpos m' * (A * B) - M * B) with ((Zpos m' * A - M) * B) by ring.
  split.
  - rewrite Z.abs_mul, (Z.abs_eq B) by lia.
    rewrite Z.mul_assoc. apply Z.mul_le_mono_nonneg_r; lia.
  - intros Hs. apply Z.eqb_eq in Hs. specialize (Htight Hs).
    rewrite Z.mul_assoc. apply Z.mul_le_mono_nonneg_r; lia.
Qed.

(** Conversion of positive integers to [double] is monotone. *)
Lemma double_of_Z_monotone (n1 n2 : Z) :
  0 < n1 <= n2 -> Zdigits2 n2 + 1 <= emax ->
  scaled (double_of_Z n1) <= scaled (double_of_Z n2).
Proof.
  intros Hn Hhi.
  destruct (Z.eq_dec n1 n2) as [->|Hne]; [lia|].
  assert (Hd1 : 1 <= Zdigits2 n1 <= Zdigits2 n2).
  { split; [destruct n1; try lia; apply Zdigits2_pos_ge_1|].
    apply Zdigits2_le; [lia|].
    pose proof (Zdigits2_bounds n2 ltac:(lia)). lia. }
  pose proof (double_of_Z_normal n1 ltac:(lia) ltac:(lia)) as N1.
  pose proof (double_of_Z_normal n2 ltac:(lia) ltac:(lia)) as N2.
  replace (n1 <? 0) with false in N1 by (symmetry; apply Z.ltb_ge; lia).
  replace (n2 <? 0) with false in N2 by (symmetry; apply Z.ltb_ge; lia).
  destruct n1 as [|p1|p1]; try lia. destruct n2 as [|p2|p2]; try lia.
  destruct (double_of_Z_accurate p1 ltac:(lia)) as [A1 T1].
  destruct (double_of_Z_accurate p2 ltac:(lia)) as [A2 _].
  destruct (Z_le_gt_dec (scaled (double_of_Z (Zpos p1))) (scaled (double_of_Z (Zpos p2))))
    as [|Hgt]; [assumption|exfalso].
  pose proof (normal_spacing _ _ _ _ _ _ N1 N2 ltac:(params) ltac:(params) ltac:(lia))
    as Hsp.
  assert (HK : 0 < 2 ^ (- d_emin)) by (apply Z.pow_pos_nonneg; params).
  assert (GX : Zpos p1 * 2 ^ (- d_emin) < Zpos p2 * 2 ^ (- d_emin))
    by (apply Z.mul_lt_mono_pos_r; lia).
  unfold lower_gap4 in Hsp.
  destruct (binade_start (double_of_Z (Zpos p1))).
  - specialize (T1 eq_refl). lia.
  - lia.
Qed.

(** ** Monotonicity of the estimates *)

Lemma normal_valid s lo hi x :
  normal s lo hi x -> d_emin + prec <= lo -> hi <= emax -> valid x = true.
Proof.
  intros (m & e & -> & Hd & Hb) Hlo Hhi.
  unfold valid, valid_binary, bounded, canonical_mantissa. cbn [is_finite].
  rewrite Hd, fexp_normal by lia.
  rewrite andb_true_r. apply andb_true_intro. split.
  - apply Z.eqb_eq. lia.
  - apply Z.leb_le. lia.
Qed.

Lemma is_zero_valid x : is_zero x -> valid x = true /\ scaled x = 0.
Proof. intros [s ->]. split; reflexivity. Qed.

Lemma scaled_le_not_dlt (x y : double) :
  valid x = true -> valid y = true -> scaled x <= scaled y -> dlt y x = false.
Proof.
  intros Vx Vy Hle. destruct (dlt y x) eqn:E; [|reflexivity].
  apply (dlt_exact y x Vy Vx) in E. lia.
Qed.

(** The double quotient of a non-negative integer below [2 ^ 64] by a
    fixed positive integer below [2 ^ prec] does not decrease when the
    numerator grows. *)
Lemma integer_quotient_monotone (n1 n2 d : Z) :
  0 <= n1 <= n2 -> n2 < 2 ^ 64 -> 0 < d < 2 ^ prec ->
  valid (ddiv (double_of_Z n1) (double_of_Z d)) = true /\
  valid (ddiv (double_of_Z n2) (double_of_Z d)) = true /\
  scaled (ddiv (double_of_Z n1) (double_of_Z d))
    <= scaled (ddiv (double_of_Z n2) (double_of_Z d)).
Proof.
  intros Hn Hn2 Hd.
  assert (Nd : normal false 1 (prec + 1) (double_of_Z d)).
  { pose proof (double_of_Z_normal d ltac:(lia)) as H.
    assert (1 <= Zdigits2 d <= prec).
    { split; [destruct d; try lia; apply Zdigits2_pos_ge_1|apply Zdigits2_le; lia]. }
    replace (d <? 0) with false in H by (symmetry; apply Z.ltb_ge; lia).
    eapply normal_weaken; [apply H; params| lia | unfold prec in *; lia].  }
  assert (Nn : forall n, 0 < n < 2 ^ 64 -> normal false 1 65 (double_of_Z n)).
  { intros n Hr. pose proof (double_of_Z_normal n ltac:(lia)) as H.
    assert (1 <= Zdigits2 n <= 64).
    { split; [destruct n; try lia; apply Zdigits2_pos_ge_1|apply Zdigits2_le; lia]. }
    replace (n <? 0) with false in H by (symmetry; apply Z.ltb_ge; lia).
    eapply normal_weaken; [apply H; params| lia | lia]. }
  assert (Nq : forall n, 0 < n < 2 ^ 64 ->
            normal false (1 - (prec + 1)) 66 (ddiv (double_of_Z n) (double_of_Z d))).
  { intros n Hr.
    pose proof (ddiv_normal _ _ _ _ _ _ _ _ (Nn n Hr) Nd
                  ltac:(params) ltac:(params) ltac:(params) ltac:(params)) as H.
    cbn [xorb] in H. exact H. }
  assert (Zq : is_zero (ddiv (double_of_Z 0) (double_of_Z d))).
  { eapply ddiv_zero_normal; [exists false; reflexivity | exact Nd]. }
  assert (Vq : forall n, 0 <= n < 2 ^ 64 ->
            valid (ddiv (double_of_Z n) (double_of_Z d)) = true /\
            0 <= scaled (ddiv (double_of_Z n) (double_of_Z d))).
  { intros n Hr. destruct (Z.eq_dec n 0) as [->|Hnz].
    - destruct (is_zero_valid _ Zq) as [-> ->]. split; [reflexivity|lia].
    - split.
      + eapply normal_valid; [apply Nq; lia | params | params].
      + pose proof (normal_scaled_pos _ _ _ (Nq n ltac:(lia)) ltac:(params)). lia. }
  split; [apply Vq; lia|]. split; [apply Vq; lia|].
  destruct (Z.eq_dec n1 0) as [->|Hnz].
  - destruct (is_zero_valid _ Zq) as [_ ->]. apply Vq. lia.
  - apply (ddiv_monotone 1 65 1 (prec + 1));
      [apply Nn; lia | apply Nn; lia | exact Nd | params | params | params | params |].
    apply double_of_Z_monotone; [lia|].
    assert (Zdigits2 n2 <= 64) by (apply Zdigits2_le; lia). params.
Qed.

(** The throughput computed from a product that fits in an [int] does not
    decrease when the product grows. *)
Lemma gflops_of_monotone (n1 n2 : Z) :
  0 <= n1 <= n2 -> n2 <= INT_MAX ->
  dlt (gflops_of n2) (gflops_of n1) = false /\
  scaled (gflops_of n1) <= scaled (gflops_of n2).
Proof.
  intros Hn Hmax. rewrite !gflops_of_quotient by lia.
  destruct (integer_quotient_monotone (n1 * 2) (n2 * 2) 1000000) as (V1 & V2 & Hle);
    [lia | unfold INT_MAX in Hmax; lia | unfold prec; lia |].
  split; [apply scaled_le_not_dlt; assumption | exact Hle].
Qed.

Lemma getTheoreticalGFLOPS_monotone
      (major1 minor1 count1 clock1 major2 minor2 count2 clock2 : Z) :
  0 <= coresPerSM major1 minor1 * count1 * clock1 ->
  coresPerSM major1 minor1 * count1 * clock1
    <= coresPerSM major2 minor2 * count2 * clock2 ->
  coresPerSM major2 minor2 * count2 * clock2 <= INT_MAX ->
  dlt (getTheoreticalGFLOPS major2 minor2 count2 clock2)
      (getTheoreticalGFLOPS major1 minor1 count1 clock1) = false.
Proof.
  intros H0 Hle Hmax. rewrite !getTheoreticalGFLOPS_gflops_of.
  rewrite !wrap32_small by (unfold in_int, INT_MIN, INT_MAX in *; lia).
  apply gflops_of_monotone; lia.
Qed.

(** The bandwidth estimate does not decrease when the bus width grows. *)
Lemma getMemoryBandwidth_monotone (memoryClockRate width1 width2 : Z) :
  0 <= memoryClockRate <= INT_MAX -> 0 <= width1 <= width2 -> width2 <= INT_MAX ->
  dlt (getMemoryBandwidth memoryClockRate width2)
      (getMemoryBandwidth memoryClockRate width1) = false /\
  scaled (getMemoryBandwidth memoryClockRate width1)
    <= scaled (getMemoryBandwidth memoryClockRate width2).
Proof.
  intros Hc Hw Hmax. rewrite !bandwidth_quotient by lia.
  destruct (integer_quotient_monotone (memoryClockRate * 2 * width1)
              (memoryClockRate * 2 * width2) 8000) as (V1 & V2 & Hle);
    [unfold INT_MAX in *; nia | unfold INT_MAX in *; nia | unfold prec; lia |].
  split; [apply scaled_le_not_dlt; assumption | exact Hle].
Qed.

(** ** The program *)

Section ProgramFacts.

Variable cudaGetDeviceCount : cudaError_t * Z.
Variable cudaGetDeviceProperties : Z -> cudaError_t * cudaDeviceProp.
Variable cudaGetErrorString : cudaError_t -> string.
Variable show_int : Z -> string.
Variable show_double : double -> string.

Local Abbreviation device_section := (device_section show_int show_double).
Local Abbreviation sections_from := (sections_from cudaGetDeviceProperties show_int show_double).
Local Abbreviation device_sections := (device_sections cudaGetDeviceProperties show_int show_double).
Local Abbreviation report_loop :=
  (report_loop cudaGetDeviceProperties cudaGetErrorString show_int show_double).
Local Abbreviation main :=
  (main cudaGetDeviceCount cudaGetDeviceProperties cudaGetErrorString show_int show_double).
Local Abbreviation queries_succeed := (queries_succeed cudaGetDeviceProperties).
Local Abbreviation first_failure := (first_failure cudaGetDeviceProperties).
Local Abbreviation cuda_check_failure := (cuda_check_failure cudaGetErrorString).

Lemma separator_value :
  separator = String (ascii_of_nat 10) (String "="%char (string_fill 59 "="%char ++ nl)%string).
Proof. reflexivity. Qed.

Lemma bound_label_not_separator (i r : double) : bound_label i r <> separator.
Proof. unfold bound_label. destruct (dlt i r); discriminate. Qed.

Lemma separator_not_in_section (device : Z) (prop : cudaDeviceProp) :
  ~ In separator (device_section device prop).
Proof.
  unfold device_section, hardware_block, analysis_block, reference_block,
    advice_block, roofline_block.
  rewrite separator_value.
  intros H. rewrite !in_app_iff in H. simpl in H.
  repeat match goal with
         | H : _ \/ _ |- _ => destruct H as [H|H]
         | H : False |- _ => destruct H
         | H : String _ _ = String _ _ |- _ => discriminate H
         | H : bound_label ?i ?r = _ |- _ =>
             exact (bound_label_not_separator i r H)
         end.
Qed.

(** *** The device loop *)

Lemma report_loop_all_succeed (todo : nat) (device deviceCount : Z) (written : list string) :
  (forall i, device <= i < device + Z.of_nat todo ->
             fst (cudaGetDeviceProperties i) = cudaSuccess) ->
  report_loop todo device deviceCount written =
  {| stdout := written ++ sections_from todo device deviceCount;
     stderr := [];
     exit_code := 0 |}.
Proof.
  revert device written.
  induction todo as [|todo IH]; intros device written Hok.
  - simpl. rewrite app_nil_r. reflexivity.
  - cbn [report_loop sections_from]. unfold CUDA_CHECK.
    pose proof (Hok device ltac:(lia)) as Hd.
    destruct (cudaGetDeviceProperties device) as [error prop]. simpl in Hd. subst error.
    change (cudaSuccess =? cudaSuccess) with true. cbv iota.
    rewrite IH by (intros i Hi; apply Hok; lia).
    cbn [snd]. rewrite <- !app_assoc. reflexivity.
Qed.

Lemma report_loop_first_failure (todo : nat) (device deviceCount : Z)
      (written : list string) (k : Z) :
  device <= k < device + Z.of_nat todo ->
  (forall i, device <= i < k -> fst (cudaGetDeviceProperties i) = cudaSuccess) ->
  fst (cudaGetDeviceProperties k) <> cudaSuccess ->
  report_loop todo device deviceCount written =
  cuda_check_failure (written ++ sections_from (Z.to_nat (k - device)) device deviceCount)
                     (fst (cudaGetDeviceProperties k)).
Proof.
  revert device written.
  induction todo as [|todo IH]; intros device written Hk Hok Hfail; [lia|].
  cbn [report_loop]. unfold CUDA_CHECK.
  destruct (Z.eq_dec device k) as [->|Hne].
  - replace (k - k) with 0 by lia. cbn [Z.to_nat sections_from]. rewrite app_nil_r.
    destruct (cudaGetDeviceProperties k) as [error prop]. cbn [fst] in *.
    destruct (error =? cudaSuccess) eqn:E; [apply Z.eqb_eq in E; contradiction|reflexivity].
  - pose proof (Hok device ltac:(lia)) as Hd.
    replace (Z.to_nat (k - device)) with (S (Z.to_nat (k - (device + 1)))) by lia.
    cbn [sections_from].
    destruct (cudaGetDeviceProperties device) as [error prop]. simpl in Hd. subst error.
    change (cudaSuccess =? cudaSuccess) with true. cbv iota.
    rewrite IH by (try lia; try assumption; intros i Hi; apply Hok; lia).
    cbn [snd]. rewrite <- !app_assoc. reflexivity.
Qed.

Lemma report_loop_exit_code (todo : nat) (device deviceCount : Z) (written : list string) :
  exit_code (report_loop todo device deviceCount written) = 0 \/
  exit_code (report_loop todo device deviceCount written) = 1.
Proof.
  revert device written. induction todo as [|todo IH]; intros device written.
  - left. reflexivity.
  - cbn [report_loop]. unfold CUDA_CHECK.
    destruct (cudaGetDeviceProperties device) as [error prop].
    destruct (error =? cudaSuccess); [apply IH | right; reflexivity].
Qed.

Lemma report_loop_exit_0 (todo : nat) (device deviceCount : Z) (written : list string) :
  exit_code (report_loop todo device deviceCount written) = 0 ->
  forall i, device <= i < device + Z.of_nat todo ->
            fst (cudaGetDeviceProperties i) = cudaSuccess.
Proof.
  revert device written. induction todo as [|todo IH]; intros device written H0 i Hi; [lia|].
  cbn [report_loop] in H0. unfold CUDA_CHECK in H0.
  destruct (cudaGetDeviceProperties device) as [error prop] eqn:Ed.
  destruct (error =? cudaSuccess) eqn:E; [|discriminate H0].
  apply Z.eqb_eq in E.
  destruct (Z.eq_dec i device) as [->|Hne].
  - rewrite Ed. exact E.
  - apply (IH _ _ H0). lia.
Qed.

(** *** Sections and separators *)

Lemma device_sections_succ (count : nat) (first : Z) :
  device_sections (S count) first =
  device_section first (snd (cudaGetDeviceProperties first))
    :: device_sections count (first + 1).
Proof.
  unfold device_sections. cbn [seq map].
  replace (first + Z.of_nat 0) with first by lia. f_equal.
  rewrite <- seq_shift, map_map. apply map_ext. intros i.
  replace (first + Z.of_nat (S i)) with (first + 1 + Z.of_nat i) by lia. reflexivity.
Qed.

Lemma sections_from_join (count : nat) (first deviceCount : Z) :
  first + Z.of_nat count = deviceCount ->
  sections_from count first deviceCount = join_sections (device_sections count first).
Proof.
  revert first. induction count as [|count IH]; intros first Hn; [reflexivity|].
  cbn [sections_from]. rewrite device_sections_succ.
  rewrite IH by lia. unfold separator_after.
  destruct count as [|count].
  - replace (first <? deviceCount - 1) with false by (symmetry; apply Z.ltb_ge; lia).
    change (device_sections 0 (first + 1)) with (@nil (list string)).
    cbn [join_sections app]. apply app_nil_r.
  - replace (first <? deviceCount - 1) with true by (symmetry; apply Z.ltb_lt; lia).
    rewrite device_sections_succ. reflexivity.
Qed.

Lemma count_separator_join (sections : list (list string)) :
  (forall s, In s sections -> ~ In separator s) ->
  count_occ string_dec (join_sections sections) separator = (List.length sections - 1)%nat.
Proof.
  induction sections as [|s rest IH]; intros Hno; [reflexivity|].
  assert (Hs : count_occ string_dec s separator = 0%nat).
  { apply count_occ_not_In, Hno. left. reflexivity. }
  destruct rest as [|s' rest].
  - simpl. exact Hs.
  - change (join_sections (s :: s' :: rest))
      with (s ++ separator :: join_sections (s' :: rest))%list.
    rewrite count_occ_app, Hs, count_occ_cons_eq by reflexivity.
    rewrite IH by (intros x Hx; apply Hno; right; exact Hx).
    simpl. lia.
Qed.

Lemma join_sections_ends (sections : list (list string)) (s : list string) :
  exists front, join_sections (sections ++ [s]) = (front ++ s)%list.
Proof.
  induction sections as [|s0 rest IH].
  - exists []. reflexivity.
  - destruct IH as [front IH].
    destruct rest as [|s1 rest].
    + exists (s0 ++ [separator])%list. simpl. rewrite <- app_assoc. reflexivity.
    + exists (s0 ++ separator :: front)%list.
      change (join_sections ((s0 :: s1 :: rest) ++ [s]))
        with (s0 ++ separator :: join_sections ((s1 :: rest) ++ [s]))%list.
      rewrite IH, <- app_assoc. reflexivity.
Qed.

Lemma device_sections_snoc (count : nat) (first : Z) :
  device_sections (S count) first =
  (device_sections count first
   ++ [device_section (first + Z.of_nat count)
         (snd (cudaGetDeviceProperties (first + Z.of_nat count)))])%list.
Proof.
  unfold device_sections. rewrite seq_S, map_app. reflexivity.
Qed.

Lemma device_sections_length (count : nat) (first : Z) :
  List.length (device_sections count first) = count.
Proof. unfold device_sections. rewrite length_map, length_seq. reflexivity. Qed.

Lemma device_sections_no_separator (count : nat) (first : Z) (s : list string) :
  In s (device_sections count first) -> ~ In separator s.
Proof.
  unfold device_sections. rewrite in_map_iff. intros (i & <- & _).
  apply separator_not_in_section.
Qed.

(** *** The run as a whole *)

(** C6: the exit code is 0 exactly when the count query succeeds with at
    least one device and every property query succeeds, and 1 otherwise; a
    failing query writes the diagnostic naming the error and ends the run at
    once: the output holds the sections of the devices before the failing
    one and nothing of the later ones. *)
Theorem main_exit_code :
  (fst cudaGetDeviceCount = cudaSuccess -> 0 <= snd cudaGetDeviceCount) ->
  (exit_code main = 0 <->
   fst cudaGetDeviceCount = cudaSuccess /\ 1 <= snd cudaGetDeviceCount /\
   queries_succeed (snd cudaGetDeviceCount)) /\
  (exit_code main = 0 \/ exit_code main = 1) /\
  (fst cudaGetDeviceCount <> cudaSuccess ->
   main = {| stdout := [banner];
             stderr := [("CUDA error: " ++ cudaGetErrorString (fst cudaGetDeviceCount) ++ nl)%string];
             exit_code := 1 |}) /\
  (fst cudaGetDeviceCount = cudaSuccess -> snd cudaGetDeviceCount = 0 ->
   main = {| stdout := [banner; no_device_message]; stderr := []; exit_code := 1 |}) /\
  (forall k, fst cudaGetDeviceCount = cudaSuccess -> k < snd cudaGetDeviceCount ->
             first_failure k ->
   main = {| stdout := banner :: sections_from (Z.to_nat k) 0 (snd cudaGetDeviceCount);
             stderr := [("CUDA error: "
                         ++ cudaGetErrorString (fst (cudaGetDeviceProperties k)) ++ nl)%string];
             exit_code := 1 |}) /\
  (fst cudaGetDeviceCount = cudaSuccess -> 1 <= snd cudaGetDeviceCount ->
   queries_succeed (snd cudaGetDeviceCount) ->
   main = {| stdout := banner :: sections_from (Z.to_nat (snd cudaGetDeviceCount)) 0
                                               (snd cudaGetDeviceCount);
             stderr := [];
             exit_code := 0 |}).
Proof.
  intros Hcount. unfold main, CUDA_CHECK.
  destruct cudaGetDeviceCount as [error deviceCount]. cbn [fst snd] in *.
  destruct (error =? cudaSuccess) eqn:E.
  - apply Z.eqb_eq in E. specialize (Hcount E).
    destruct (deviceCount =? 0) eqn:E0.
    + apply Z.eqb_eq in E0. subst deviceCount. cbn [exit_code].
      split; [|split; [|split; [|split; [|split]]]].
      * split; [discriminate | intros (_ & H & _); lia].
      * right; reflexivity.
      * intros Hne. contradiction.
      * reflexivity.
      * intros k _ Hk (Hk0 & _). lia.
      * intros _ H. lia.
    + apply Z.eqb_neq in E0.
      assert (Hall : queries_succeed deviceCount ->
                     report_loop (Z.to_nat deviceCount) 0 deviceCount [banner] =
                     {| stdout := banner :: sections_from (Z.to_nat deviceCount) 0 deviceCount;
                        stderr := []; exit_code := 0 |}).
      { intros Hq. rewrite report_loop_all_succeed; [reflexivity|].
        intros i Hi. apply Hq. lia. }
      split; [|split; [|split; [|split; [|split]]]].
      * split.
        -- intros H0. split; [exact E|]. split; [lia|].
           intros i Hi. eapply report_loop_exit_0; [exact H0 | lia].
        -- intros (_ & _ & Hq). rewrite Hall by exact Hq. reflexivity.
      * apply report_loop_exit_code.
      * intros Hne. contradiction.
      * intros _ H0. contradiction.
      * intros k _ Hk (Hk0 & Hq & Hfail).
        rewrite report_loop_first_failure with (k := k);
          [ | lia | intros i Hi; apply Hq; lia | exact Hfail ].
        replace (k - 0) with k by lia. reflexivity.
      * intros _ _ Hq. apply Hall, Hq.
  - apply Z.eqb_neq in E. cbn [exit_code cuda_check_failure].
    split; [|split; [|split; [|split; [|split]]]].
    + split; [discriminate | intros (H & _); contradiction].
    + right; reflexivity.
    + reflexivity.
    + intros H. contradiction.
    + intros k H. contradiction.
    + intros H. contradiction.
Qed.

(** C10: when the [N >= 1] devices are all reported, the output is the
    banner followed by the [N] device sections with one separator rule
    between neighbours: [N - 1] separators in all (none for one device), and
    the output ends with the last device's section, not with a separator. *)
Theorem separators_between_sections :
  fst cudaGetDeviceCount = cudaSuccess -> 1 <= snd cudaGetDeviceCount ->
  queries_succeed (snd cudaGetDeviceCount) ->
  stdout main = banner :: join_sections (device_sections (Z.to_nat (snd cudaGetDeviceCount)) 0) /\
  List.length (device_sections (Z.to_nat (snd cudaGetDeviceCount)) 0)
    = Z.to_nat (snd cudaGetDeviceCount) /\
  count_occ string_dec (stdout main) separator = Z.to_nat (snd cudaGetDeviceCount - 1) /\
  (exists front,
      stdout main =
      (front ++ device_section (snd cudaGetDeviceCount - 1)
                  (snd (cudaGetDeviceProperties (snd cudaGetDeviceCount - 1))))%list) /\
  ~ In separator (device_section (snd cudaGetDeviceCount - 1)
                    (snd (cudaGetDeviceProperties (snd cudaGetDeviceCount - 1)))) /\
  separator = (nl ++ string_fill 60 "="%char ++ nl)%string.
Proof.
  intros Hok Hn Hq.
  assert (Hout : stdout main =
                 banner :: join_sections (device_sections (Z.to_nat (snd cudaGetDeviceCount)) 0)).
  { unfold main, CUDA_CHECK. destruct cudaGetDeviceCount as [error deviceCount]. cbn [fst snd] in *.
    subst error. change (cudaSuccess =? cudaSuccess) with true. cbv iota.
    replace (deviceCount =? 0) with false by (symmetry; apply Z.eqb_neq; lia).
    rewrite report_loop_all_succeed by (intros i Hi; apply Hq; lia).
    cbn [stdout app]. f_equal. apply sections_from_join. lia. }
  split; [exact Hout|]. split; [apply device_sections_length|].
  split; [|split; [|split]].
  - rewrite Hout. rewrite count_occ_cons_neq by discriminate.
    rewrite count_separator_join by apply device_sections_no_separator.
    rewrite device_sections_length. lia.
  - rewrite Hout.
    replace (Z.to_nat (snd cudaGetDeviceCount))
      with (S (Z.to_nat (snd cudaGetDeviceCount - 1))) by lia.
    rewrite device_sections_snoc.
    replace (0 + Z.of_nat (Z.to_nat (snd cudaGetDeviceCount - 1)))
      with (snd cudaGetDeviceCount - 1) by lia.
    destruct (join_sections_ends
                (device_sections (Z.to_nat (snd cudaGetDeviceCount - 1)) 0)
                (device_section (snd cudaGetDeviceCount - 1)
                   (snd (cudaGetDeviceProperties (snd cudaGetDeviceCount - 1)))))
      as [front Hf].
    exists (banner :: front). rewrite Hf. reflexivity.
  - apply separator_not_in_section.
  - reflexivity.
Qed.

End ProgramFacts.

(** C6 on a run with two devices whose queries succeed. *)
Lemma main_exit_code_witness :
  exit_code (main two_devices_count always_succeeds sample_error_string
                  sample_show_int sample_show_double) = 0 <->
  fst two_devices_count = cudaSuccess /\ 1 <= snd two_devices_count /\
  queries_succeed always_succeeds (snd two_devices_count).
Proof.
  apply (main_exit_code two_devices_count always_succeeds sample_error_string
           sample_show_int sample_show_double).
  intros _. simpl. lia.
Defined.

(** C10 on the same run: one separator for two devices. *)
Lemma separators_between_sections_witness :
  count_occ string_dec
    (stdout (main two_devices_count always_succeeds sample_error_string
                  sample_show_int sample_show_double)) separator = 1%nat.
Proof.
  apply (separators_between_sections two_devices_count always_succeeds sample_error_string
           sample_show_int sample_show_double).
  - reflexivity.
  - simpl. lia.
  - intros i _. reflexivity.
Defined.

(** * The claims *)

(** C1: the function always returns a finite double, but not always the
    formula's: on the A100 values in the API's units (108 clusters, 64
    cores, clock 1410000 kHz) it returns the double nearest to 2311.970816,
    where the formula gives 19491.84, because the [int] product
    6912 * 1410000 = 9745920000 wraps to 1155985408. *)
Theorem getTheoreticalGFLOPS_A100_wraps :
  (forall major minor multiProcessorCount clockRate : Z,
      is_finite (getTheoreticalGFLOPS major minor multiProcessorCount clockRate) = true) /\
  getTheoreticalGFLOPS 8 0 108 1410000 = S754_finite false 5084077590541534 (-41) /\
  peak_throughput_formula 108 (coresPerSM 8 0) 1410000
    = S754_finite false 5357876181687337 (-38) /\
  getTheoreticalGFLOPS 8 0 108 1410000 <> peak_throughput_formula 108 (coresPerSM 8 0) 1410000 /\
  int_mul (totalCores 8 0 108) 1410000 = 1155985408 /\
  (Qabs (Q_of_double (getTheoreticalGFLOPS 8 0 108 1410000) - (2311970816 # 1000000))
     <= (1 # (2 ^ 42)))%Q /\
  (Qabs (Q_of_double (peak_throughput_formula 108 (coresPerSM 8 0) 1410000) - (1949184 # 100))
     <= (1 # (2 ^ 39)))%Q.
Proof.
  split.
  - intros. rewrite getTheoreticalGFLOPS_gflops_of. apply gflops_of_finite, wrap32_in_int.
  - repeat split; vm_compute; try reflexivity; discriminate.
Qed.

(** C2, as stated, asks for distinct values for every generation from 2
    through 9.  Generations 5 and 9 share the value 128, and generation 4 has
    no entry: it gets the default, which is also the value of generation 7. *)
Lemma coresPerSM_generations_not_distinct :
  coresPerSM 5 0 = coresPerSM 9 0 /\
  table_entry core_table 4 = None /\
  coresPerSM 4 0 = coresPerSM 7 0 /\
  ~ (forall g1 g2 m1 m2 : Z,
        2 <= g1 <= 9 -> 2 <= g2 <= 9 -> g1 <> g2 ->
        coresPerSM g1 m1 <> coresPerSM g2 m2).
Proof.
  repeat split. intros H. apply (H 5 9 0 0); [lia | lia | lia | reflexivity].
Qed.

(** C2 (amended): [coresPerSM] is the lookup in the table with entries for
    the generations 2, 3, 5, 6, 7, 8 and 9 (2 -> 32, 3 -> 192, 5 -> 128,
    6 -> 64 at minor 0 and 128 otherwise, 7 -> 64, 8 -> 64 at minor 0 and 128
    otherwise, 9 -> 128), and every other pair gets the default 64. *)
Theorem coresPerSM_table (major minor : Z) :
  coresPerSM major minor = table_cores major minor /\
  (table_entry core_table major = None <->
   ~ In major [2; 3; 5; 6; 7; 8; 9]) /\
  (~ In major [2; 3; 5; 6; 7; 8; 9] -> coresPerSM major minor = 64).
Proof.
  unfold coresPerSM, table_cores, default_cores. simpl.
  destruct (major =? 2) eqn:E2; [apply Z.eqb_eq in E2; subst; simpl; intuition (try discriminate; lia)|].
  destruct (major =? 3) eqn:E3; [apply Z.eqb_eq in E3; subst; simpl; intuition (try discriminate; lia)|].
  destruct (major =? 5) eqn:E5; [apply Z.eqb_eq in E5; subst; simpl; intuition (try discriminate; lia)|].
  destruct (major =? 6) eqn:E6;
    [apply Z.eqb_eq in E6; subst; simpl; destruct (minor =? 0); intuition (try discriminate; lia)|].
  destruct (major =? 7) eqn:E7;
    [apply Z.eqb_eq in E7; subst; simpl; destruct (minor =? 0); intuition (try discriminate; lia)|].
  destruct (major =? 8) eqn:E8;
    [apply Z.eqb_eq in E8; subst; simpl; destruct (minor =? 0); intuition (try discriminate; lia)|].
  destruct (major =? 9) eqn:E9; [apply Z.eqb_eq in E9; subst; simpl; intuition (try discriminate; lia)|].
  apply Z.eqb_neq in E2, E3, E5, E6, E7, E8, E9.
  intuition lia.
Qed.

(** C2 at generation 4, which has no entry. *)
Lemma coresPerSM_table_witness :
  ~ In 4 [2; 3; 5; 6; 7; 8; 9] /\ coresPerSM 4 0 = 64.
Proof.
  assert (H : ~ In 4 [2; 3; 5; 6; 7; 8; 9]) by (simpl; lia).
  split; [exact H|].
  apply (proj2 (proj2 (coresPerSM_table 4 0))). exact H.
Defined.

(** C3: for a ridge point [R], the five reference workloads are labelled in
    order by the test [I < R] on their representative intensities:
    memory-bound when it holds and compute-bound otherwise, hence
    compute-bound at [I = R]; on valid finite doubles the test compares the
    exact values. *)
Theorem reference_block_labels (R : double) :
  workload_labels R =
    map (fun I => if dlt I R then memory_bound_label else compute_bound_label)
        reference_workloads /\
  Forall2 (fun I label =>
             (label = memory_bound_label <-> dlt I R = true) /\
             (label = compute_bound_label <-> dlt I R = false))
          reference_workloads (workload_labels R) /\
  (forall I, In I reference_workloads ->
             bound_label I I = compute_bound_label /\ valid I = true) /\
  (valid R = true ->
   forall I, In I reference_workloads ->
             (bound_label I R = memory_bound_label <-> scaled I < scaled R)).
Proof.
  assert (Hne : memory_bound_label <> compute_bound_label) by discriminate.
  assert (Hl : forall I, (bound_label I R = memory_bound_label <-> dlt I R = true) /\
                         (bound_label I R = compute_bound_label <-> dlt I R = false)).
  { intros I. unfold bound_label. destruct (dlt I R); split; split; intros H;
      try reflexivity; try discriminate; congruence. }
  split; [reflexivity|]. split; [|split].
  - unfold workload_labels, reference_block, reference_workloads. cbn [tl every_second].
    repeat constructor; apply Hl.
  - intros I HI. unfold reference_workloads in HI. simpl in HI.
    repeat destruct HI as [<-|HI]; try contradiction; split; reflexivity.
  - intros HR I HI. rewrite (proj1 (Hl I)). apply dlt_exact; [|exact HR].
    unfold reference_workloads in HI. simpl in HI.
    repeat destruct HI as [<-|HI]; try contradiction; reflexivity.
Qed.

(** C3 at the ridge point 5.0, for the first workload. *)
Lemma reference_block_labels_witness :
  valid (S754_finite false 5629499534213120 (-50)) = true /\
  In d_0_33 reference_workloads /\
  (bound_label d_0_33 (S754_finite false 5629499534213120 (-50)) = memory_bound_label <->
   scaled d_0_33 < scaled (S754_finite false 5629499534213120 (-50))).
Proof.
  split; [reflexivity|]. split; [left; reflexivity|].
  apply (proj2 (proj2 (proj2 (reference_block_labels
                                (S754_finite false 5629499534213120 (-50)))))).
  - reflexivity.
  - left; reflexivity.
Defined.

(** C4: for non-negative [int] inputs the bandwidth estimate is the
    quotient, in double arithmetic, of the integer [mem_clock x 2 x
    bus_width] by 8000; when that integer is below [2 ^ 53] the result is
    within half a unit in the last place of the formula's exact value; the
    result is a finite double for all [int] inputs; and at (1215, 5120) it
    is the double nearest to 1555.2. *)
Theorem getMemoryBandwidth_formula :
  (forall memoryClockRate memoryBusWidth : Z,
      0 <= memoryClockRate <= INT_MAX -> 0 <= memoryBusWidth <= INT_MAX ->
      getMemoryBandwidth memoryClockRate memoryBusWidth =
      peak_bandwidth_formula memoryClockRate memoryBusWidth) /\
  (forall memoryClockRate memoryBusWidth : Z,
      0 < memoryClockRate <= INT_MAX -> 0 < memoryBusWidth <= INT_MAX ->
      memoryClockRate * 2 * memoryBusWidth < 2 ^ prec ->
      2 * Z.abs (scaled (getMemoryBandwidth memoryClockRate memoryBusWidth) * 8000
                 - memoryClockRate * 2 * memoryBusWidth * 2 ^ (- d_emin))
        <= ulp (getMemoryBandwidth memoryClockRate memoryBusWidth) * 8000) /\
  (forall memoryClockRate memoryBusWidth : Z,
      in_int memoryClockRate -> in_int memoryBusWidth ->
      is_finite (getMemoryBandwidth memoryClockRate memoryBusWidth) = true) /\
  getMemoryBandwidth 1215 5120 = d_1555_2 /\
  (Qabs (Q_of_double (getMemoryBandwidth 1215 5120) - (15552 # 10)) <= (1 # (2 ^ 43)))%Q.
Proof.
  split; [|split; [|split; [|split]]].
  - intros. apply bandwidth_quotient; assumption.
  - apply bandwidth_accurate.
  - apply bandwidth_finite.
  - vm_compute. reflexivity.
  - vm_compute. discriminate.
Qed.

(** C4 at the specification's second scenario. *)
Lemma getMemoryBandwidth_formula_witness :
  0 <= 1215 <= INT_MAX /\ 0 <= 5120 <= INT_MAX /\
  getMemoryBandwidth 1215 5120 = peak_bandwidth_formula 1215 5120.
Proof.
  split; [unfold INT_MAX; lia|]. split; [unfold INT_MAX; lia|].
  apply (proj1 getMemoryBandwidth_formula 1215 5120); unfold INT_MAX; lia.
Defined.

(** C5: the ridge point is the double quotient [t / b].  For a normal [t]
    and a positive normal [b] whose quotient is in the normal range it is a
    finite double within half a unit in the last place of the exact
    quotient.  With a zero bandwidth nothing guards the division: the result
    is an infinity or a NaN, never a finite number. *)
Theorem calculateBoundaryArithmeticIntensity_quotient :
  (forall t b : double, calculateBoundaryArithmeticIntensity t b = SFdiv prec emax t b) /\
  (forall (st : bool) (mt mb : positive) (et eb : Z),
      Zpos (digits2_pos mt) = prec -> Zpos (digits2_pos mb) = prec ->
      d_emin <= et -> d_emin <= eb ->
      d_emin + prec <= et - eb -> et - eb + 2 <= emax ->
      is_finite (calculateBoundaryArithmeticIntensity
                   (S754_finite st mt et) (S754_finite false mb eb)) = true /\
      2 * Z.abs (scaled (calculateBoundaryArithmeticIntensity
                           (S754_finite st mt et) (S754_finite false mb eb))
                 * scaled (S754_finite false mb eb)
                 - scaled (S754_finite st mt et) * 2 ^ (- d_emin))
        <= ulp (calculateBoundaryArithmeticIntensity
                  (S754_finite st mt et) (S754_finite false mb eb))
           * scaled (S754_finite false mb eb)) /\
  (forall (t : double) (s : bool),
      is_finite (calculateBoundaryArithmeticIntensity t (S754_zero s)) = false) /\
  (forall (t : double) (s : bool),
      calculateBoundaryArithmeticIntensity t (S754_zero s) =
      match t with
      | S754_finite st _ _ | S754_infinity st => S754_infinity (xorb st s)
      | _ => S754_nan
      end).
Proof.
  split; [|split; [|split]].
  - reflexivity.
  - intros st mt mb et eb Hdt Hdb Het Heb Hlo Hhi.
    assert (Nt : normal st (et + prec) (et + prec) (S754_finite st mt et))
      by (exists mt, et; repeat split; try assumption; lia).
    assert (Nb : normal false (eb + prec) (eb + prec) (S754_finite false mb eb))
      by (exists mb, eb; repeat split; try assumption; lia).
    destruct (ddiv_accurate _ _ _ _ _ _ _ _ Nt Nb) as (Hn & Hacc & _); try lia.
    unfold calculateBoundaryArithmeticIntensity. split.
    + exact (normal_is_finite _ _ _ _ Hn).
    + rewrite (Z.abs_eq (scaled (S754_finite false mb eb))) in Hacc; [exact Hacc|].
      cbn [scaled cond_Zopp]. apply Z.mul_nonneg_nonneg; [lia|].
      apply Z.pow_nonneg. lia.
  - intros t s; destruct t; reflexivity.
  - intros t s; destruct t; reflexivity.
Qed.

(** C5 at the throughput and bandwidth of the two scenarios. *)
Lemma calculateBoundaryArithmeticIntensity_quotient_witness :
  Zpos (digits2_pos 5486465210047833) = prec /\
  Zpos (digits2_pos 6839841934068941) = prec /\
  d_emin <= -48 /\ d_emin <= -42 /\ d_emin + prec <= -48 - -42 /\ -48 - -42 + 2 <= emax /\
  is_finite (calculateBoundaryArithmeticIntensity
               (S754_finite false 5486465210047833 (-48))
               (S754_finite false 6839841934068941 (-42))) = true.
Proof.
  repeat (split; [vm_compute; (reflexivity || discriminate)|]).
  apply (proj1 (proj2 calculateBoundaryArithmeticIntensity_quotient)
           false 5486465210047833%positive 6839841934068941%positive (-48) (-42));
    vm_compute; (reflexivity || discriminate).
Defined.

(** C7: the product is formed in 32-bit arithmetic before it is widened.
    The function therefore agrees with the formula whenever the
    mathematical product is at most [2 ^ 31 - 1] (and is then within half a
    unit in the last place of the formula's exact value), and it differs
    from the formula on the A100 values, whose product wraps. *)
Theorem getTheoreticalGFLOPS_int_product :
  (forall major minor multiProcessorCount clockRate : Z,
      getTheoreticalGFLOPS major minor multiProcessorCount clockRate =
      ddiv (dmul (double_of_Z
                    (wrap32 (coresPerSM major minor * multiProcessorCount * clockRate)))
                 d_2_0) d_1000000_0) /\
  (forall major minor multiProcessorCount clockRate : Z,
      0 <= multiProcessorCount -> 0 <= clockRate ->
      coresPerSM major minor * multiProcessorCount * clockRate <= 2 ^ 31 - 1 ->
      getTheoreticalGFLOPS major minor multiProcessorCount clockRate =
      peak_throughput_formula multiProcessorCount (coresPerSM major minor) clockRate) /\
  (forall major minor multiProcessorCount clockRate : Z,
      0 < multiProcessorCount -> 0 < clockRate ->
      coresPerSM major minor * multiProcessorCount * clockRate <= 2 ^ 31 - 1 ->
      2 * Z.abs (scaled (getTheoreticalGFLOPS major minor multiProcessorCount clockRate)
                 * 1000000
                 - coresPerSM major minor * multiProcessorCount * clockRate * 2
                   * 2 ^ (- d_emin))
        <= ulp (getTheoreticalGFLOPS major minor multiProcessorCount clockRate) * 1000000) /\
  (2 ^ 31 - 1 < coresPerSM 8 0 * 108 * 1410000 /\
   getTheoreticalGFLOPS 8 0 108 1410000 <>
   peak_throughput_formula 108 (coresPerSM 8 0) 1410000).
Proof.
  split; [|split; [|split]].
  - intros. apply getTheoreticalGFLOPS_gflops_of.
  - intros major minor mpc clk Hm Hc Hb.
    rewrite getTheoreticalGFLOPS_gflops_of. unfold peak_throughput_formula.
    pose proof (coresPerSM_bounds major minor).
    rewrite wrap32_small by (unfold in_int, INT_MIN, INT_MAX; nia).
    rewrite gflops_of_quotient by (unfold INT_MAX; nia).
    do 2 f_equal. ring.
  - intros major minor mpc clk Hm Hc Hb.
    rewrite getTheoreticalGFLOPS_gflops_of.
    pose proof (coresPerSM_bounds major minor).
    rewrite wrap32_small by (unfold in_int, INT_MIN, INT_MAX; nia).
    apply gflops_of_accurate. unfold INT_MAX. nia.
  - split; vm_compute; [reflexivity | discriminate].
Qed.

(** C7 at the specification's first scenario. *)
Lemma getTheoreticalGFLOPS_int_product_witness :
  0 <= 108 /\ 0 <= 1410 /\ coresPerSM 8 0 * 108 * 1410 <= 2 ^ 31 - 1 /\
  getTheoreticalGFLOPS 8 0 108 1410 = peak_throughput_formula 108 (coresPerSM 8 0) 1410.
Proof.
  split; [lia|]. split; [lia|]. split; [vm_compute; discriminate|].
  apply (proj1 (proj2 getTheoreticalGFLOPS_int_product) 8 0 108 1410);
    [lia | lia | vm_compute; discriminate].
Defined.

(** The specification's first scenario: compute capability 8.0, 108
    clusters, clock 1410.  The core count is 64 and the result is the double
    nearest to 19.49184. *)
Example scenario_1 :
  coresPerSM 8 0 = 64 /\
  getTheoreticalGFLOPS 8 0 108 1410 = peak_throughput_formula 108 64 1410 /\
  (Qabs (Q_of_double (getTheoreticalGFLOPS 8 0 108 1410) - (1949184 # 100000))
     <= (1 # (2 ^ 49)))%Q.
Proof. repeat split; vm_compute; try reflexivity; discriminate. Qed.

(** C8, as stated, fails when the throughput estimate is zero: a device
    that reports clock rate 0 has positive bandwidth and ridge point +0. *)
Lemma ridge_zero_with_positive_bandwidth :
  dlt d_zero (getMemoryBandwidth 1215 5120) = true /\
  calculateBoundaryArithmeticIntensity
    (getTheoreticalGFLOPS 8 0 108 0) (getMemoryBandwidth 1215 5120) = S754_zero false /\
  dlt d_zero (calculateBoundaryArithmeticIntensity
                (getTheoreticalGFLOPS 8 0 108 0) (getMemoryBandwidth 1215 5120)) = false.
Proof. repeat split. Qed.

(** C8 (amended): whenever the computed peak bandwidth and the computed
    peak throughput are both strictly positive, the ridge point is strictly
    positive. *)
Theorem ridge_point_positive
  (major minor multiProcessorCount clockRate memoryClockRate memoryBusWidth : Z) :
  in_int memoryClockRate -> in_int memoryBusWidth ->
  dlt d_zero (getMemoryBandwidth memoryClockRate memoryBusWidth) = true ->
  dlt d_zero (getTheoreticalGFLOPS major minor multiProcessorCount clockRate) = true ->
  dlt d_zero (calculateBoundaryArithmeticIntensity
                (getTheoreticalGFLOPS major minor multiProcessorCount clockRate)
                (getMemoryBandwidth memoryClockRate memoryBusWidth)) = true.
Proof.
  intros Hc Hw Hb Hg.
  pose proof (bandwidth_positive_normal _ _ Hc Hw Hb) as Hbn.
  rewrite getTheoreticalGFLOPS_gflops_of in *.
  set (n := wrap32 (coresPerSM major minor * multiProcessorCount * clockRate)) in *.
  assert (Hn : in_int n) by apply wrap32_in_int.
  destruct (Z.eq_dec n 0) as [Hz|Hnz].
  { rewrite Hz in Hg. discriminate. }
  pose proof (gflops_of_normal n Hn Hnz) as Hgn.
  destruct (n <? 0).
  { rewrite (normal_negative _ _ _ Hgn) in Hg. discriminate. }
  eapply normal_positive, ridge_sign; eassumption.
Qed.

(** C8 (amended) at the values of the two scenarios. *)
Lemma ridge_point_positive_witness :
  in_int 1215 /\ in_int 5120 /\
  dlt d_zero (getMemoryBandwidth 1215 5120) = true /\
  dlt d_zero (getTheoreticalGFLOPS 8 0 108 1410) = true /\
  dlt d_zero (calculateBoundaryArithmeticIntensity
                (getTheoreticalGFLOPS 8 0 108 1410) (getMemoryBandwidth 1215 5120)) = true.
Proof.
  split; [int_range|]. split; [int_range|].
  split; [reflexivity|]. split; [reflexivity|].
  apply ridge_point_positive; [int_range | int_range | reflexivity | reflexivity].
Defined.

(** C9: the throughput estimate is not monotone in the clock rate: with 108
    clusters of 64 cores, clock 300000 gives 4147.2 and the larger clock
    1410000 gives 2311.97, because the [int] product wraps. As long as the
    product fits in an [int], the estimate does not decrease when the clock
    rate, the cluster count or the cores per cluster grow; the bandwidth
    estimate, computed in [double], does not decrease when the bus width
    grows, for all non-negative [int] inputs. *)
Theorem getTheoreticalGFLOPS_monotone_until_overflow :
  (300000 <= 1410000 /\
   dlt (getTheoreticalGFLOPS 8 0 108 1410000) (getTheoreticalGFLOPS 8 0 108 300000) = true /\
   getTheoreticalGFLOPS 8 0 108 300000 = peak_throughput_formula 108 (coresPerSM 8 0) 300000 /\
   dlt (peak_throughput_formula 108 (coresPerSM 8 0) 300000)
       (peak_throughput_formula 108 (coresPerSM 8 0) 1410000) = true) /\
  (forall major minor multiProcessorCount clock1 clock2 : Z,
      0 <= multiProcessorCount -> 0 <= clock1 <= clock2 ->
      coresPerSM major minor * multiProcessorCount * clock2 <= INT_MAX ->
      dlt (getTheoreticalGFLOPS major minor multiProcessorCount clock2)
          (getTheoreticalGFLOPS major minor multiProcessorCount clock1) = false) /\
  (forall major minor count1 count2 clockRate : Z,
      0 <= clockRate -> 0 <= count1 <= count2 ->
      coresPerSM major minor * count2 * clockRate <= INT_MAX ->
      dlt (getTheoreticalGFLOPS major minor count2 clockRate)
          (getTheoreticalGFLOPS major minor count1 clockRate) = false) /\
  (forall major1 minor1 major2 minor2 multiProcessorCount clockRate : Z,
      0 <= multiProcessorCount -> 0 <= clockRate ->
      coresPerSM major1 minor1 <= coresPerSM major2 minor2 ->
      coresPerSM major2 minor2 * multiProcessorCount * clockRate <= INT_MAX ->
      dlt (getTheoreticalGFLOPS major2 minor2 multiProcessorCount clockRate)
          (getTheoreticalGFLOPS major1 minor1 multiProcessorCount clockRate) = false) /\
  (forall memoryClockRate width1 width2 : Z,
      0 <= memoryClockRate <= INT_MAX -> 0 <= width1 <= width2 -> width2 <= INT_MAX ->
      is_finite (getMemoryBandwidth memoryClockRate width1) = true /\
      is_finite (getMemoryBandwidth memoryClockRate width2) = true /\
      dlt (getMemoryBandwidth memoryClockRate width2)
          (getMemoryBandwidth memoryClockRate width1) = false).
Proof.
  split; [repeat split; vm_compute; try reflexivity; discriminate|].
  split; [|split; [|split]].
  - intros major minor count clock1 clock2 Hc Hk Hmax.
    pose proof (coresPerSM_bounds major minor) as Hb.
    apply getTheoreticalGFLOPS_monotone; [nia | | exact Hmax].
    apply Z.mul_le_mono_nonneg_l; nia.
  - intros major minor count1 count2 clock Hk Hc Hmax.
    pose proof (coresPerSM_bounds major minor) as Hb.
    apply getTheoreticalGFLOPS_monotone; [nia | | exact Hmax].
    apply Z.mul_le_mono_nonneg_r; [lia|].
    apply Z.mul_le_mono_nonneg_l; lia.
  - intros major1 minor1 major2 minor2 count clock Hc Hk Hle Hmax.
    pose proof (coresPerSM_bounds major1 minor1) as Hb.
    apply getTheoreticalGFLOPS_monotone; [nia | | exact Hmax].
    apply Z.mul_le_mono_nonneg_r; [lia|].
    apply Z.mul_le_mono_nonneg_r; lia.
  - intros mc w1 w2 Hc Hw Hmax.
    assert (Hin : in_int mc /\ in_int w1 /\ in_int w2)
      by (unfold in_int, INT_MIN, INT_MAX in *; lia).
    destruct Hin as (Hi & Hi1 & Hi2).
    split; [apply bandwidth_finite; assumption|].
    split; [apply bandwidth_finite; assumption|].
    apply getMemoryBandwidth_monotone; assumption.
Qed.

Lemma getTheoreticalGFLOPS_monotone_until_overflow_witness :
  dlt (getTheoreticalGFLOPS 8 0 108 300000) (getTheoreticalGFLOPS 8 0 108 200000) = false /\
  dlt (getTheoreticalGFLOPS 8 0 108 300000) (getTheoreticalGFLOPS 8 0 80 300000) = false /\
  dlt (getTheoreticalGFLOPS 8 6 108 100000) (getTheoreticalGFLOPS 8 0 108 100000) = false /\
  dlt (getMemoryBandwidth 1215 5120) (getMemoryBandwidth 1215 4096) = false.
Proof.
  destruct getTheoreticalGFLOPS_monotone_until_overflow
    as (_ & Hclock & Hcount & Hcores & Hwidth).
  split.
  { apply (Hclock 8 0 108 200000 300000);
      [lia | lia | vm_compute; intros H; discriminate H]. }
  split.
  { apply (Hcount 8 0 80 108 300000);
      [lia | lia | vm_compute; intros H; discriminate H]. }
  split.
  { apply (Hcores 8 0 8 6 108 100000);
      [lia | lia | vm_compute; intros H; discriminate H
      | vm_compute; intros H; discriminate H]. }
  apply (Hwidth 1215 4096 5120); [int_range | lia | int_range].
Defined.

(** * Further properties of the code *)

(** ** The labels as a function of the ridge point *)

(** The comparison of two positive finite doubles, by fields. *)
Lemma dlt_positive_fields (m1 m2 : positive) (e1 e2 : Z) :
  dlt (S754_finite false m1 e1) (S754_finite false m2 e2) = true <->
  e1 < e2 \/ (e1 = e2 /\ (m1 < m2)%positive).
Proof.
  unfold dlt, SFltb, SFcompare.
  destruct (Z.compare_spec e1 e2) as [->|Hlt|Hgt].
  - rewrite Pos.compare_cont_spec. cbn [Pos.switch_Eq].
    destruct (Pos.compare_spec m1 m2) as [->|H|H].
    + split; [discriminate | lia].
    + split; [intros _; right; split; [reflexivity|exact H] | reflexivity].
    + split; [discriminate | lia].
  - split; [intros _; left; exact Hlt | reflexivity].
  - split; [discriminate | lia].
Qed.

(** A literal below the ridge point puts every smaller literal below it,
    whatever the ridge point is (finite or not). *)
Lemma dlt_literal_chain (m1 m2 : positive) (e1 e2 : Z) (R : double) :
  e1 < e2 \/ (e1 = e2 /\ (m1 < m2)%positive) ->
  dlt (S754_finite false m2 e2) R = true -> dlt (S754_finite false m1 e1) R = true.
Proof.
  intros Hlit. destruct R as [s|s| |s m e]; try (destruct s); try discriminate;
    try reflexivity.
  rewrite !dlt_positive_fields. lia.
Qed.

(** X1: whatever the ridge point is (finite, infinite or NaN), the five
    labels of lines 111-130 are a run of memory-bound labels followed by a
    run of compute-bound ones: a workload is never memory-bound while one of
    lower intensity is compute-bound.  The number of memory-bound labels is
    the number of intensities below the ridge point. *)
Theorem reference_labels_threshold (R : double) :
  let k := List.length (filter (fun I => dlt I R) reference_workloads) in
  (k <= 5)%nat /\
  workload_labels R =
    (repeat memory_bound_label k ++ repeat compute_bound_label (5 - k))%list.
Proof.
  assert (H12 : dlt d_2_0 R = true -> dlt d_0_33 R = true)
    by (apply dlt_literal_chain; lia).
  assert (H23 : dlt d_8_0 R = true -> dlt d_2_0 R = true)
    by (apply dlt_literal_chain; lia).
  assert (H34 : dlt d_40_0 R = true -> dlt d_8_0 R = true)
    by (apply dlt_literal_chain; lia).
  assert (H45 : dlt d_60_0 R = true -> dlt d_40_0 R = true)
    by (apply dlt_literal_chain; lia).
  unfold workload_labels, reference_block, bound_label, reference_workloads.
  cbn [tl every_second filter].
  destruct (dlt d_60_0 R).
  { rewrite H45, H34, H23, H12 by auto. split; [cbn; lia|reflexivity]. }
  destruct (dlt d_40_0 R).
  { rewrite H34, H23, H12 by auto. split; [cbn; lia|reflexivity]. }
  destruct (dlt d_8_0 R).
  { rewrite H23, H12 by auto. split; [cbn; lia|reflexivity]. }
  destruct (dlt d_2_0 R).
  { rewrite H12 by auto. split; [cbn; lia|reflexivity]. }
  destruct (dlt d_0_33 R); split; (cbn; lia) || reflexivity.
Qed.

(** ** A device without memory bandwidth *)

Lemma bandwidth_plus_zero (memoryClockRate memoryBusWidth : Z) :
  0 <= memoryClockRate <= INT_MAX -> 0 <= memoryBusWidth <= INT_MAX ->
  memoryClockRate = 0 \/ memoryBusWidth = 0 ->
  getMemoryBandwidth memoryClockRate memoryBusWidth = S754_zero false.
Proof.
  intros Hc Hw Hz. rewrite bandwidth_quotient by assumption.
  replace (memoryClockRate * 2 * memoryBusWidth) with 0 by (destruct Hz; subst; lia).
  reflexivity.
Qed.

(** X2: a device reporting memory clock 0 or bus width 0 has bandwidth +0,
    and the unguarded division gives a ridge point that is not finite:
    +infinity when the throughput is positive (all five workloads are then
    labelled memory-bound), NaN when it is zero and -infinity when the
    wrapped product is negative (all five compute-bound). *)
Theorem zero_bandwidth_report
        (major minor multiProcessorCount clockRate memoryClockRate memoryBusWidth : Z) :
  0 <= memoryClockRate <= INT_MAX -> 0 <= memoryBusWidth <= INT_MAX ->
  memoryClockRate = 0 \/ memoryBusWidth = 0 ->
  let n := wrap32 (coresPerSM major minor * multiProcessorCount * clockRate) in
  let R := calculateBoundaryArithmeticIntensity
             (getTheoreticalGFLOPS major minor multiProcessorCount clockRate)
             (getMemoryBandwidth memoryClockRate memoryBusWidth) in
  is_finite R = false /\
  (0 < n -> R = S754_infinity false /\
            workload_labels R = repeat memory_bound_label 5) /\
  (n = 0 -> R = S754_nan /\ workload_labels R = repeat compute_bound_label 5) /\
  (n < 0 -> R = S754_infinity true /\
            workload_labels R = repeat compute_bound_label 5).
Proof.
  intros Hc Hw Hz n R. unfold R, calculateBoundaryArithmeticIntensity.
  rewrite (bandwidth_plus_zero _ _ Hc Hw Hz), getTheoreticalGFLOPS_gflops_of.
  fold n. assert (Hn : in_int n) by apply wrap32_in_int.
  destruct (Z.eq_dec n 0) as [E|Hnz].
  - rewrite E. repeat split; intros; try lia; reflexivity.
  - destruct (gflops_of_normal n Hn Hnz) as (m & e & -> & _).
    destruct (Z.ltb_spec n 0); repeat split; intros; try lia; reflexivity.
Qed.

Lemma zero_bandwidth_report_witness :
  calculateBoundaryArithmeticIntensity (getTheoreticalGFLOPS 8 0 108 1410)
                                       (getMemoryBandwidth 1215 0)
    = S754_infinity false /\
  calculateBoundaryArithmeticIntensity (getTheoreticalGFLOPS 8 0 108 0)
                                       (getMemoryBandwidth 0 5120)
    = S754_nan.
Proof.
  split.
  - apply (zero_bandwidth_report 8 0 108 1410 1215 0);
      [int_range | int_range | right; reflexivity | reflexivity].
  - apply (zero_bandwidth_report 8 0 108 0 0 5120);
      [int_range | int_range | left; reflexivity | reflexivity].
Defined.

(** ** The minor version *)

(** X6: the minor version matters only for majors 6 and 8, and there only
    through being zero or not; for major 7 both branches of lines 32-33
    assign 64. *)
Theorem minor_version_ignored
        (major minor minor' multiProcessorCount clockRate : Z) :
  (major <> 6 /\ major <> 8) \/ (minor <> 0 /\ minor' <> 0) ->
  coresPerSM major minor = coresPerSM major minor' /\
  getTheoreticalGFLOPS major minor multiProcessorCount clockRate =
  getTheoreticalGFLOPS major minor' multiProcessorCount clockRate.
Proof.
  intros H.
  assert (E : coresPerSM major minor = coresPerSM major minor').
  { unfold coresPerSM.
    destruct (major =? 2); [reflexivity|]. destruct (major =? 3); [reflexivity|].
    destruct (major =? 5); [reflexivity|].
    destruct (Z.eqb_spec major 6) as [E6|N6].
    { destruct H as [[H _]|[H1 H2]]; [contradiction|].
      apply Z.eqb_neq in H1, H2. rewrite H1, H2. reflexivity. }
    destruct (major =? 7); [destruct (minor =? 0), (minor' =? 0); reflexivity|].
    destruct (Z.eqb_spec major 8) as [E8|N8].
    { destruct H as [[_ H]|[H1 H2]]; [contradiction|].
      apply Z.eqb_neq in H1, H2. rewrite H1, H2. reflexivity. }
    reflexivity. }
  split; [exact E|].
  rewrite !getTheoreticalGFLOPS_gflops_of, E. reflexivity.
Qed.

Lemma minor_version_ignored_witness :
  getTheoreticalGFLOPS 7 0 80 1530 = getTheoreticalGFLOPS 7 5 80 1530 /\
  getTheoreticalGFLOPS 8 6 84 1700 = getTheoreticalGFLOPS 8 9 84 1700.
Proof.
  split.
  - apply (minor_version_ignored 7 0 5 80 1530). left. split; discriminate.
  - apply (minor_version_ignored 8 6 9 84 1700). right. split; discriminate.
Defined.

(** ** Range and sign of the throughput estimate *)

Lemma gflops_of_valid (n : Z) : in_int n -> valid (gflops_of n) = true.
Proof.
  intros Hn. destruct (Z.eq_dec n 0) as [->|Hnz]; [reflexivity|].
  eapply normal_valid; [apply gflops_of_normal; assumption | params | params].
Qed.

Lemma gflops_of_sign (n : Z) :
  in_int n ->
  (0 < scaled (gflops_of n) <-> 0 < n) /\ (scaled (gflops_of n) < 0 <-> n < 0).
Proof.
  intros Hn. destruct (Z.eq_dec n 0) as [->|Hnz].
  { change (scaled (gflops_of 0)) with 0. lia. }
  pose proof (gflops_of_normal n Hn Hnz) as N.
  destruct (Z.ltb_spec n 0) as [Hneg|Hpos].
  - destruct N as (m & e & -> & _ & Hb). cbn [scaled cond_Zopp].
    assert (0 < 2 ^ (e - d_emin)) by (apply Z.pow_pos_nonneg; params).
    nia.
  - pose proof (normal_scaled_pos _ _ _ N ltac:(params)). lia.
Qed.

(** X4: because the product is an [int], the throughput estimate is finite
    and below 4295 GFLOPS for all inputs: it never exceeds the value at the
    product [INT_MAX]. *)
Theorem getTheoreticalGFLOPS_ceiling (major minor multiProcessorCount clockRate : Z) :
  is_finite (getTheoreticalGFLOPS major minor multiProcessorCount clockRate) = true /\
  dlt (getTheoreticalGFLOPS major minor multiProcessorCount clockRate)
      (double_of_Z 4295) = true /\
  dlt (gflops_of INT_MAX)
      (getTheoreticalGFLOPS major minor multiProcessorCount clockRate) = false.
Proof.
  rewrite getTheoreticalGFLOPS_gflops_of.
  set (n := wrap32 (coresPerSM major minor * multiProcessorCount * clockRate)).
  assert (Hn : in_int n) by apply wrap32_in_int.
  assert (Vmax : valid (gflops_of INT_MAX) = true) by (vm_compute; reflexivity).
  assert (Hle : scaled (gflops_of n) <= scaled (gflops_of INT_MAX)).
  { destruct (Z_lt_le_dec n 0) as [Hneg|Hpos].
    - apply (gflops_of_sign n Hn) in Hneg.
      assert (0 < scaled (gflops_of INT_MAX)) by (vm_compute; reflexivity). lia.
    - apply gflops_of_monotone; unfold in_int in Hn; lia. }
  split; [apply gflops_of_finite; exact Hn|]. split.
  - apply dlt_exact; [apply gflops_of_valid; exact Hn | vm_compute; reflexivity|].
    assert (scaled (gflops_of INT_MAX) < scaled (double_of_Z 4295))
      by (vm_compute; reflexivity).
    lia.
  - apply scaled_le_not_dlt; [apply gflops_of_valid; exact Hn | exact Vmax | exact Hle].
Qed.

(** X5: the throughput estimate has the sign of the wrapped [int] product.
    When the product of non-negative inputs fits in an [int] the estimate is
    never negative, and positive exactly when the cluster count and the
    clock rate are; non-negative inputs whose product wraps can give a
    negative estimate (80 clusters of 64 cores at 1530000 kHz). *)
Theorem getTheoreticalGFLOPS_sign (major minor multiProcessorCount clockRate : Z) :
  let n := wrap32 (coresPerSM major minor * multiProcessorCount * clockRate) in
  let t := getTheoreticalGFLOPS major minor multiProcessorCount clockRate in
  (dlt d_zero t = true <-> 0 < n) /\
  (dlt t d_zero = true <-> n < 0) /\
  (0 <= multiProcessorCount -> 0 <= clockRate ->
   coresPerSM major minor * multiProcessorCount * clockRate <= INT_MAX ->
   dlt t d_zero = false /\
   (dlt d_zero t = true <-> 0 < multiProcessorCount /\ 0 < clockRate)) /\
  dlt (getTheoreticalGFLOPS 7 0 80 1530000) d_zero = true.
Proof.
  intros n t. unfold t. rewrite getTheoreticalGFLOPS_gflops_of. fold n.
  assert (Hn : in_int n) by apply wrap32_in_int.
  pose proof (gflops_of_valid n Hn) as V.
  pose proof (gflops_of_sign n Hn) as [Hp Hm].
  assert (V0 : valid d_zero = true) by reflexivity.
  assert (P : dlt d_zero (gflops_of n) = true <-> 0 < n).
  { rewrite (dlt_exact _ _ V0 V). exact Hp. }
  assert (M : dlt (gflops_of n) d_zero = true <-> n < 0).
  { rewrite (dlt_exact _ _ V V0). exact Hm. }
  split; [exact P|]. split; [exact M|]. split; [|reflexivity].
  intros Hc Hk Hfit. pose proof (coresPerSM_bounds major minor) as Hb.
  assert (E : n = coresPerSM major minor * multiProcessorCount * clockRate).
  { unfold n. apply wrap32_small. unfold in_int, INT_MIN, INT_MAX in *. nia. }
  split.
  - apply not_true_is_false. rewrite M. nia.
  - rewrite P, E. split; [intros H|intros [H1 H2]]; nia.
Qed.

Lemma getTheoreticalGFLOPS_sign_witness :
  dlt (getTheoreticalGFLOPS 8 0 108 1410) d_zero = false /\
  (dlt d_zero (getTheoreticalGFLOPS 8 0 108 1410) = true <-> 0 < 108 /\ 0 < 1410).
Proof.
  apply (getTheoreticalGFLOPS_sign 8 0 108 1410);
    [lia | lia | vm_compute; intros H; discriminate H].
Defined.

(** ** Sign and symmetry of the bandwidth estimate *)

Lemma normal_dlt_zero (s : bool) lo hi (x : double) :
  normal s lo hi x -> dlt d_zero x = negb s /\ dlt x d_zero = s /\ ~ is_zero x.
Proof.
  intros (m & e & -> & _). destruct s; repeat split; intros [z Hz]; discriminate.
Qed.

Lemma is_zero_dlt_zero (x : double) :
  is_zero x -> dlt d_zero x = false /\ dlt x d_zero = false.
Proof. intros [s ->]. destruct s; split; reflexivity. Qed.

(** X7: for [int] inputs the bandwidth estimate is zero exactly when one
    of its inputs is, positive exactly when both have the same sign and
    negative exactly when their signs differ. *)
Theorem getMemoryBandwidth_sign (memoryClockRate memoryBusWidth : Z) :
  in_int memoryClockRate -> in_int memoryBusWidth ->
  (is_zero (getMemoryBandwidth memoryClockRate memoryBusWidth) <->
   memoryClockRate = 0 \/ memoryBusWidth = 0) /\
  (dlt d_zero (getMemoryBandwidth memoryClockRate memoryBusWidth) = true <->
   (0 < memoryClockRate /\ 0 < memoryBusWidth) \/
   (memoryClockRate < 0 /\ memoryBusWidth < 0)) /\
  (dlt (getMemoryBandwidth memoryClockRate memoryBusWidth) d_zero = true <->
   (0 < memoryClockRate /\ memoryBusWidth < 0) \/
   (memoryClockRate < 0 /\ 0 < memoryBusWidth)).
Proof.
  intros Hc Hw.
  destruct (Z.eq_dec memoryClockRate 0) as [Hcz|Hcz];
    [|destruct (Z.eq_dec memoryBusWidth 0) as [Hwz|Hwz]].
  - pose proof (bandwidth_zero _ _ Hc Hw (or_introl Hcz)) as Z0.
    destruct (is_zero_dlt_zero _ Z0) as [-> ->].
    split; [tauto|]. split; (split; [discriminate|lia]).
  - pose proof (bandwidth_zero _ _ Hc Hw (or_intror Hwz)) as Z0.
    destruct (is_zero_dlt_zero _ Z0) as [-> ->].
    split; [tauto|]. split; (split; [discriminate|lia]).
  - pose proof (bandwidth_normal _ _ Hc Hw Hcz Hwz) as N.
    destruct (normal_dlt_zero _ _ _ _ N) as (-> & -> & Hnz).
    split; [split; [contradiction|lia]|].
    destruct (Z.ltb_spec memoryClockRate 0), (Z.ltb_spec memoryBusWidth 0);
      cbn [xorb negb]; split; split; intros; try discriminate; try reflexivity; lia.
Qed.

Lemma getMemoryBandwidth_sign_witness :
  dlt d_zero (getMemoryBandwidth 1215 5120) = true <->
  (0 < 1215 /\ 0 < 5120) \/ (1215 < 0 /\ 5120 < 0).
Proof. apply (getMemoryBandwidth_sign 1215 5120); int_range. Defined.

Lemma bandwidth_symmetric (a b : Z) :
  0 <= a <= INT_MAX -> 0 <= b <= INT_MAX ->
  getMemoryBandwidth a b = getMemoryBandwidth b a.
Proof.
  intros Ha Hb. rewrite !bandwidth_quotient by assumption.
  do 2 f_equal. ring.
Qed.

(** X8: on non-negative [int] inputs the bandwidth estimate is symmetric
    in the memory clock and the bus width, so it is non-decreasing in the
    memory clock as well. *)
Theorem getMemoryBandwidth_symmetric :
  (forall memoryClockRate memoryBusWidth : Z,
      0 <= memoryClockRate <= INT_MAX -> 0 <= memoryBusWidth <= INT_MAX ->
      getMemoryBandwidth memoryClockRate memoryBusWidth =
      getMemoryBandwidth memoryBusWidth memoryClockRate) /\
  (forall clock1 clock2 memoryBusWidth : Z,
      0 <= clock1 <= clock2 -> clock2 <= INT_MAX -> 0 <= memoryBusWidth <= INT_MAX ->
      dlt (getMemoryBandwidth clock2 memoryBusWidth)
          (getMemoryBandwidth clock1 memoryBusWidth) = false).
Proof.
  split; [exact bandwidth_symmetric|].
  intros c1 c2 w Hc Hmax Hw.
  rewrite (bandwidth_symmetric c1 w), (bandwidth_symmetric c2 w) by lia.
  apply getMemoryBandwidth_monotone; assumption.
Qed.

Lemma getMemoryBandwidth_symmetric_witness :
  getMemoryBandwidth 1215 5120 = getMemoryBandwidth 5120 1215 /\
  dlt (getMemoryBandwidth 1215 5120) (getMemoryBandwidth 877 5120) = false.
Proof.
  destruct getMemoryBandwidth_symmetric as [Hsym Hmono]. split.
  - apply Hsym; int_range.
  - apply Hmono; [lia | int_range | int_range].
Defined.

(** ** Exact and ordered quotients *)

Lemma ulp_pos s lo hi x : normal s lo hi x -> d_emin + prec <= lo -> 0 < ulp x.
Proof.
  intros (m & e & -> & _ & Hb) Hlo. cbn [ulp]. apply Z.pow_pos_nonneg; lia.
Qed.

Lemma lower_gap4_pos s lo hi x :
  normal s lo hi x -> d_emin + prec <= lo -> 0 < lower_gap4 x.
Proof.
  intros N Hlo. pose proof (ulp_pos _ _ _ _ N Hlo). unfold lower_gap4.
  destruct (binade_start x); lia.
Qed.

(** A quotient that is a normal double is returned as it is. *)
Lemma ddiv_exact a1 b1 a2 b2 lo hi (x y q : double) :
  normal false a1 b1 x -> normal false a2 b2 y -> normal false lo hi q ->
  d_emin + prec <= a1 -> d_emin + prec <= a2 -> d_emin + prec <= lo ->
  d_emin + prec <= a1 - b2 -> b1 - a2 + 2 <= emax ->
  scaled q * scaled y = scaled x * 2 ^ (- d_emin) ->
  ddiv x y = q.
Proof.
  intros Nx Ny Nq H1 H2 H3 Hlo Hhi E.
  destruct (ddiv_accurate _ _ _ _ _ _ _ _ Nx Ny H1 H2 Hlo Hhi) as (Nz & A & T).
  cbn [xorb] in Nz.
  pose proof (normal_scaled_pos _ _ _ Nx H1) as Px.
  pose proof (normal_scaled_pos _ _ _ Ny H2) as Py.
  pose proof (normal_scaled_pos _ _ _ Nz Hlo) as Pz.
  pose proof (ulp_pos _ _ _ _ Nq H3) as Uq.
  pose proof (ulp_pos _ _ _ _ Nz Hlo) as Uz.
  pose proof (lower_gap4_pos _ _ _ _ Nq H3) as Gq.
  rewrite !Z.abs_eq in T by lia. rewrite <- E in A, T.
  set (Z := scaled (ddiv x y)) in *. set (Y := scaled y) in *. set (Q := scaled q) in *.
  replace (Z * Y - Q * Y) with ((Z - Q) * Y) in A, T by ring.
  rewrite Z.abs_mul, (Z.abs_eq Y) in A by lia.
  assert (A' : 2 * Z.abs (Z - Q) <= ulp (ddiv x y)).
  { apply (Z.mul_le_mono_pos_r _ _ Y); [lia|]. lia. }
  assert (T' : 4 * (Z - Q) <= lower_gap4 (ddiv x y)).
  { unfold lower_gap4. destruct (binade_start (ddiv x y)).
    - apply (Z.mul_le_mono_pos_r _ _ Y); [lia|]. specialize (T eq_refl). lia.
    - lia. }
  apply (normal_scaled_inj _ _ _ _ _ _ Nz Nq Hlo H3).
  destruct (Z.lt_trichotomy Z Q) as [Hlt|[Heq|Hgt]]; [exfalso| exact Heq |exfalso].
  - pose proof (normal_spacing _ _ _ _ _ _ Nq Nz H3 Hlo Hlt). lia.
  - pose proof (normal_spacing _ _ _ _ _ _ Nz Nq Hlo H3 Hgt). lia.
Qed.

(** Division of a fixed positive double is antitone in the divisor. *)
Lemma ddiv_antitone a1 b1 a2 b2 (x y1 y2 : double) :
  normal false a1 b1 x -> normal false a2 b2 y1 -> normal false a2 b2 y2 ->
  d_emin + prec <= a1 -> d_emin + prec <= a2 ->
  d_emin + prec <= a1 - b2 -> b1 - a2 + 2 <= emax ->
  scaled y1 <= scaled y2 ->
  scaled (ddiv x y2) <= scaled (ddiv x y1).
Proof.
  intros Nx N1 N2 H1 H2 Hlo Hhi Hle.
  destruct (Z.eq_dec (scaled y1) (scaled y2)) as [E|Hne].
  { rewrite (normal_scaled_inj _ _ _ _ _ _ N1 N2 H2 H2 E). lia. }
  destruct (ddiv_accurate _ _ _ _ _ _ _ _ Nx N1 H1 H2 Hlo Hhi) as (Nz1 & A1 & _).
  destruct (ddiv_accurate _ _ _ _ _ _ _ _ Nx N2 H1 H2 Hlo Hhi) as (Nz2 & A2 & T2).
  cbn [xorb] in Nz1, Nz2.
  pose proof (normal_scaled_pos _ _ _ Nx H1) as Px.
  pose proof (normal_scaled_pos _ _ _ N1 H2) as Py1.
  pose proof (normal_scaled_pos _ _ _ N2 H2) as Py2.
  pose proof (normal_scaled_pos _ _ _ Nz1 Hlo) as Pz1.
  pose proof (normal_scaled_pos _ _ _ Nz2 Hlo) as Pz2.
  pose proof (ulp_pos _ _ _ _ Nz1 Hlo) as U1.
  rewrite !Z.abs_eq in T2 by lia.
  destruct (Z_le_gt_dec (scaled (ddiv x y2)) (scaled (ddiv x y1))) as [|Hgt];
    [assumption|exfalso].
  pose proof (normal_spacing _ _ _ _ _ _ Nz2 Nz1 Hlo Hlo ltac:(lia)) as Hsp.
  set (Z1 := scaled (ddiv x y1)) in *. set (Z2 := scaled (ddiv x y2)) in *.
  set (Y1 := scaled y1) in *. set (Y2 := scaled y2) in *.
  set (XK := scaled x * 2 ^ (- d_emin)) in *.
  set (u1 := ulp (ddiv x y1)) in *. set (g2 := lower_gap4 (ddiv x y2)) in *.
  assert (G2 : (4 * Z2 - g2) * Y2 <= 4 * XK).
  { unfold g2, lower_gap4. destruct (binade_start (ddiv x y2)).
    - specialize (T2 eq_refl). lia.
    - lia. }
  assert (G1 : 4 * XK <= (4 * Z1 + 2 * u1) * Y1) by lia.
  assert (B : 0 < 4 * Z1 + 2 * u1 <= 4 * Z2 - g2) by lia.
  assert (S1 : (4 * Z1 + 2 * u1) * Y1 < (4 * Z1 + 2 * u1) * Y2)
    by (apply Z.mul_lt_mono_pos_l; lia).
  assert (S2 : (4 * Z1 + 2 * u1) * Y2 <= (4 * Z2 - g2) * Y2)
    by (apply Z.mul_le_mono_nonneg_r; lia).
  lia.
Qed.

Lemma ddiv_integers_exact (n d k : Z) :
  0 < k -> 0 < d -> n = k * d -> n < 2 ^ prec ->
  ddiv (double_of_Z n) (double_of_Z d) = double_of_Z k.
Proof.
  intros Hk Hd E Hn.
  assert (Hr : forall z, 0 < z < 2 ^ prec -> normal false 1 (prec + 1) (double_of_Z z)).
  { intros z Hz. pose proof (double_of_Z_normal z ltac:(lia)) as H.
    assert (1 <= Zdigits2 z <= prec).
    { split; [destruct z; try lia; apply Zdigits2_pos_ge_1|apply Zdigits2_le; lia]. }
    replace (z <? 0) with false in H by (symmetry; apply Z.ltb_ge; lia).
    eapply normal_weaken; [apply H; params| lia | lia]. }
  assert (Hkn : k <= n /\ d <= n) by nia.
  apply (ddiv_exact 1 (prec + 1) 1 (prec + 1) 1 (prec + 1));
    try (apply Hr; lia); try params.
  rewrite !double_of_Z_value by lia. subst n. ring.
Qed.

Lemma ridge_order (n1 n2 : Z) (B1 B2 : double) :
  0 <= n1 <= n2 -> n2 <= INT_MAX ->
  normal false (-11) 59 B1 -> normal false (-11) 59 B2 ->
  scaled B2 <= scaled B1 ->
  valid (ddiv (gflops_of n1) B1) = true /\
  valid (ddiv (gflops_of n2) B2) = true /\
  scaled (ddiv (gflops_of n1) B1) <= scaled (ddiv (gflops_of n2) B2).
Proof.
  intros Hn Hmax N1 N2 HB.
  assert (Hq : forall n B, 0 <= n <= INT_MAX -> normal false (-11) 59 B ->
            valid (ddiv (gflops_of n) B) = true /\
            0 <= scaled (ddiv (gflops_of n) B) /\
            (0 < n -> normal false (-18 - 59) (18 - -11 + 2) (ddiv (gflops_of n) B))).
  { intros n B Hr NB. destruct (Z.eq_dec n 0) as [->|Hnz].
    - assert (Z0 : is_zero (ddiv (gflops_of 0) B)).
      { eapply ddiv_zero_normal; [exists false; reflexivity | exact NB]. }
      destruct (is_zero_valid _ Z0) as [-> ->]. split; [reflexivity|]. split; lia.
    - pose proof (gflops_of_normal n ltac:(unfold in_int, INT_MIN, INT_MAX in *; lia) Hnz) as Ng.
      replace (n <? 0) with false in Ng by (symmetry; apply Z.ltb_ge; lia).
      pose proof (ddiv_normal _ _ _ _ _ _ _ _ Ng NB
                    ltac:(params) ltac:(params) ltac:(params) ltac:(params)) as Nq.
      cbn [xorb] in Nq. split; [|split].
      + eapply normal_valid; [exact Nq | params | params].
      + pose proof (normal_scaled_pos _ _ _ Nq ltac:(params)). lia.
      + intros _. exact Nq. }
  destruct (Hq n1 B1 ltac:(lia) N1) as (V1 & P1 & _).
  destruct (Hq n2 B2 ltac:(lia) N2) as (V2 & P2 & _).
  split; [exact V1|]. split; [exact V2|].
  destruct (Z.eq_dec n1 0) as [->|Hnz].
  - assert (Z0 : is_zero (ddiv (gflops_of 0) B1)).
    { eapply ddiv_zero_normal; [exists false; reflexivity | exact N1]. }
    destruct (is_zero_valid _ Z0) as [_ ->]. exact P2.
  - assert (Ng : forall n, 0 < n <= INT_MAX -> normal false (-18) 18 (gflops_of n)).
    { intros n Hr. pose proof (gflops_of_normal n ltac:(unfold in_int, INT_MIN, INT_MAX in *; lia) ltac:(lia)) as Ng.
      replace (n <? 0) with false in Ng by (symmetry; apply Z.ltb_ge; lia).
      exact Ng. }
    apply Z.le_trans with (scaled (ddiv (gflops_of n2) B1)).
    + apply (ddiv_monotone (-18) 18 (-11) 59);
        try (apply Ng; lia); try assumption; try params.
      apply gflops_of_monotone; lia.
    + apply (ddiv_antitone (-18) 18 (-11) 59);
        try (apply Ng; lia); try assumption; params.
Qed.

(** X9: when the formula's value is a whole number the estimators return
    it exactly: the bandwidth when 8000 divides [clock * 2 * width] (below
    [2 ^ 53]), the throughput when 1000000 divides twice the product (which
    fits in an [int]). *)
Theorem whole_number_estimates_exact :
  (forall memoryClockRate memoryBusWidth k : Z,
      0 <= memoryClockRate <= INT_MAX -> 0 <= memoryBusWidth <= INT_MAX ->
      memoryClockRate * 2 * memoryBusWidth < 2 ^ prec ->
      memoryClockRate * 2 * memoryBusWidth = k * 8000 ->
      getMemoryBandwidth memoryClockRate memoryBusWidth = double_of_Z k) /\
  (forall major minor multiProcessorCount clockRate k : Z,
      0 <= multiProcessorCount -> 0 <= clockRate ->
      coresPerSM major minor * multiProcessorCount * clockRate <= INT_MAX ->
      coresPerSM major minor * multiProcessorCount * clockRate * 2 = k * 1000000 ->
      getTheoreticalGFLOPS major minor multiProcessorCount clockRate = double_of_Z k).
Proof.
  split.
  - intros mc bw k Hc Hw Hlt E. rewrite bandwidth_quotient by assumption.
    destruct (Z.eq_dec k 0) as [->|Hk].
    + rewrite E. reflexivity.
    + apply ddiv_integers_exact; [nia | lia | exact E | exact Hlt].
  - intros major minor mpc clk k Hm Hc Hfit E.
    pose proof (coresPerSM_bounds major minor) as Hb.
    rewrite getTheoreticalGFLOPS_gflops_of.
    rewrite wrap32_small by (unfold in_int, INT_MIN, INT_MAX in *; nia).
    rewrite gflops_of_quotient by nia.
    destruct (Z.eq_dec k 0) as [->|Hk].
    + rewrite E. reflexivity.
    + apply ddiv_integers_exact; [nia | lia | exact E |].
      rewrite pow2_prec. unfold INT_MAX in *. lia.
Qed.

Lemma whole_number_estimates_exact_witness :
  getMemoryBandwidth 1215000 5120 = double_of_Z 1555200 /\
  getTheoreticalGFLOPS 6 1 10 1500000 = double_of_Z 3840.
Proof.
  destruct whole_number_estimates_exact as [Hb Ht]. split.
  - apply Hb; [int_range | int_range | vm_compute; reflexivity | reflexivity].
  - apply Ht; [lia | lia | vm_compute; intros H; discriminate H | reflexivity].
Defined.

(** ** Order of ridge points and of the labels they give *)

Lemma ridge_point_order
      (major1 minor1 count1 clock1 major2 minor2 count2 clock2
       memoryClockRate width1 width2 : Z) :
  0 <= coresPerSM major1 minor1 * count1 * clock1 ->
  coresPerSM major1 minor1 * count1 * clock1
    <= coresPerSM major2 minor2 * count2 * clock2 ->
  coresPerSM major2 minor2 * count2 * clock2 <= INT_MAX ->
  0 < memoryClockRate <= INT_MAX -> 0 < width2 <= width1 -> width1 <= INT_MAX ->
  valid (calculateBoundaryArithmeticIntensity
           (getTheoreticalGFLOPS major1 minor1 count1 clock1)
           (getMemoryBandwidth memoryClockRate width1)) = true /\
  valid (calculateBoundaryArithmeticIntensity
           (getTheoreticalGFLOPS major2 minor2 count2 clock2)
           (getMemoryBandwidth memoryClockRate width2)) = true /\
  scaled (calculateBoundaryArithmeticIntensity
            (getTheoreticalGFLOPS major1 minor1 count1 clock1)
            (getMemoryBandwidth memoryClockRate width1))
    <= scaled (calculateBoundaryArithmeticIntensity
                 (getTheoreticalGFLOPS major2 minor2 count2 clock2)
                 (getMemoryBandwidth memoryClockRate width2)).
Proof.
  intros H0 Hle Hmax Hc Hw Hw1.
  unfold calculateBoundaryArithmeticIntensity.
  rewrite !getTheoreticalGFLOPS_gflops_of.
  rewrite !wrap32_small by (unfold in_int, INT_MIN, INT_MAX in *; lia).
  assert (NB : forall w, 0 < w <= INT_MAX ->
            normal false (-11) 59 (getMemoryBandwidth memoryClockRate w)).
  { intros w Hr.
    pose proof (bandwidth_normal memoryClockRate w
                  ltac:(unfold in_int, INT_MIN, INT_MAX in *; lia)
                  ltac:(unfold in_int, INT_MIN, INT_MAX in *; lia)
                  ltac:(lia) ltac:(lia)) as N.
    replace (memoryClockRate <? 0) with false in N by (symmetry; apply Z.ltb_ge; lia).
    replace (w <? 0) with false in N by (symmetry; apply Z.ltb_ge; lia).
    exact N. }
  apply ridge_order; [lia | lia | apply NB; lia | apply NB; lia |].
  apply getMemoryBandwidth_monotone; lia.
Qed.

(** X11: for a device with positive memory clock and bus width whose
    product fits in an [int], the ridge point does not decrease when the
    clock rate grows and does not increase when the bus width grows. *)
Theorem ridge_point_monotone :
  (forall major minor multiProcessorCount clock1 clock2 memoryClockRate memoryBusWidth : Z,
      0 <= multiProcessorCount -> 0 <= clock1 <= clock2 ->
      coresPerSM major minor * multiProcessorCount * clock2 <= INT_MAX ->
      0 < memoryClockRate <= INT_MAX -> 0 < memoryBusWidth <= INT_MAX ->
      dlt (calculateBoundaryArithmeticIntensity
             (getTheoreticalGFLOPS major minor multiProcessorCount clock2)
             (getMemoryBandwidth memoryClockRate memoryBusWidth))
          (calculateBoundaryArithmeticIntensity
             (getTheoreticalGFLOPS major minor multiProcessorCount clock1)
             (getMemoryBandwidth memoryClockRate memoryBusWidth)) = false) /\
  (forall major minor multiProcessorCount clockRate memoryClockRate width1 width2 : Z,
      0 <= multiProcessorCount -> 0 <= clockRate ->
      coresPerSM major minor * multiProcessorCount * clockRate <= INT_MAX ->
      0 < memoryClockRate <= INT_MAX -> 0 < width1 <= width2 -> width2 <= INT_MAX ->
      dlt (calculateBoundaryArithmeticIntensity
             (getTheoreticalGFLOPS major minor multiProcessorCount clockRate)
             (getMemoryBandwidth memoryClockRate width1))
          (calculateBoundaryArithmeticIntensity
             (getTheoreticalGFLOPS major minor multiProcessorCount clockRate)
             (getMemoryBandwidth memoryClockRate width2)) = false).
Proof.
  split.
  - intros major minor mpc c1 c2 mc bw Hm Hc Hfit Hmc Hbw.
    pose proof (coresPerSM_bounds major minor) as Hb.
    destruct (ridge_point_order major minor mpc c1 major minor mpc c2 mc bw bw)
      as (V1 & V2 & Hle); try lia; try nia.
    { apply Z.mul_le_mono_nonneg_l; nia. }
    apply scaled_le_not_dlt; assumption.
  - intros major minor mpc clk mc w1 w2 Hm Hc Hfit Hmc Hw Hw2.
    pose proof (coresPerSM_bounds major minor) as Hb.
    destruct (ridge_point_order major minor mpc clk major minor mpc clk mc w2 w1)
      as (V1 & V2 & Hle); try lia; try nia.
    apply scaled_le_not_dlt; assumption.
Qed.

Lemma ridge_point_monotone_witness :
  dlt (calculateBoundaryArithmeticIntensity (getTheoreticalGFLOPS 8 0 108 1410)
                                            (getMemoryBandwidth 1215 5120))
      (calculateBoundaryArithmeticIntensity (getTheoreticalGFLOPS 8 0 108 1095)
                                            (getMemoryBandwidth 1215 5120)) = false /\
  dlt (calculateBoundaryArithmeticIntensity (getTheoreticalGFLOPS 8 0 108 1410)
                                            (getMemoryBandwidth 1215 4096))
      (calculateBoundaryArithmeticIntensity (getTheoreticalGFLOPS 8 0 108 1410)
                                            (getMemoryBandwidth 1215 5120)) = false.
Proof.
  destruct ridge_point_monotone as [Hclock Hwidth]. split.
  - apply (Hclock 8 0 108 1095 1410 1215 5120);
      [lia | lia | vm_compute; intros H; discriminate H | int_range | int_range].
  - apply (Hwidth 8 0 108 1410 1215 4096 5120);
      [lia | lia | vm_compute; intros H; discriminate H | int_range | lia | int_range].
Defined.

(** X12: between two devices with the same memory clock, if the second
    has at least the product of the first (both fitting in an [int]) and at
    most its bus width, every reference workload labelled memory-bound for
    the first is labelled memory-bound for the second. *)
Theorem labels_follow_ridge_point
        (major1 minor1 count1 clock1 major2 minor2 count2 clock2
         memoryClockRate width1 width2 : Z) :
  0 <= coresPerSM major1 minor1 * count1 * clock1 ->
  coresPerSM major1 minor1 * count1 * clock1
    <= coresPerSM major2 minor2 * count2 * clock2 ->
  coresPerSM major2 minor2 * count2 * clock2 <= INT_MAX ->
  0 < memoryClockRate <= INT_MAX -> 0 < width2 <= width1 -> width1 <= INT_MAX ->
  forall I, In I reference_workloads ->
    bound_label I (calculateBoundaryArithmeticIntensity
                     (getTheoreticalGFLOPS major1 minor1 count1 clock1)
                     (getMemoryBandwidth memoryClockRate width1)) = memory_bound_label ->
    bound_label I (calculateBoundaryArithmeticIntensity
                     (getTheoreticalGFLOPS major2 minor2 count2 clock2)
                     (getMemoryBandwidth memoryClockRate width2)) = memory_bound_label.
Proof.
  intros H0 Hle Hmax Hc Hw Hw1 I HI.
  destruct (ridge_point_order _ _ _ _ _ _ _ _ _ _ _ H0 Hle Hmax Hc Hw Hw1)
    as (V1 & V2 & Hord).
  assert (VI : valid I = true).
  { unfold reference_workloads in HI. simpl in HI.
    repeat destruct HI as [<-|HI]; try contradiction; reflexivity. }
  unfold bound_label.
  destruct (dlt I (calculateBoundaryArithmeticIntensity
                     (getTheoreticalGFLOPS major1 minor1 count1 clock1)
                     (getMemoryBandwidth memoryClockRate width1))) eqn:D1;
    [intros _ | discriminate].
  apply (dlt_exact _ _ VI V1) in D1.
  replace (dlt I _) with true; [reflexivity|].
  symmetry. apply (dlt_exact _ _ VI V2). lia.
Qed.

Lemma labels_follow_ridge_point_witness :
  bound_label d_2_0 (calculateBoundaryArithmeticIntensity
                       (getTheoreticalGFLOPS 8 0 108 310000)
                       (getMemoryBandwidth 1215 4096)) = memory_bound_label.
Proof.
  apply (labels_follow_ridge_point 8 0 108 300000 8 0 108 310000 1215 5120 4096).
  - vm_compute. intros H. discriminate H.
  - vm_compute. intros H. discriminate H.
  - vm_compute. intros H. discriminate H.
  - int_range.
  - lia.
  - int_range.
  - right. left. reflexivity.
  - vm_compute. reflexivity.
Defined.

(** ** Finite and exact ridge points *)

(** X3: for [int] inputs the ridge point of a device is finite exactly
    when its memory clock and its bus width are both non-zero. *)
Theorem ridge_point_finite_iff
        (major minor multiProcessorCount clockRate memoryClockRate memoryBusWidth : Z) :
  in_int memoryClockRate -> in_int memoryBusWidth ->
  (is_finite (calculateBoundaryArithmeticIntensity
                (getTheoreticalGFLOPS major minor multiProcessorCount clockRate)
                (getMemoryBandwidth memoryClockRate memoryBusWidth)) = true <->
   memoryClockRate <> 0 /\ memoryBusWidth <> 0).
Proof.
  intros Hc Hw. unfold calculateBoundaryArithmeticIntensity.
  rewrite getTheoreticalGFLOPS_gflops_of.
  set (n := wrap32 (coresPerSM major minor * multiProcessorCount * clockRate)).
  assert (Hn : in_int n) by apply wrap32_in_int.
  assert (Hz : is_zero (getMemoryBandwidth memoryClockRate memoryBusWidth) ->
               is_finite (ddiv (gflops_of n)
                               (getMemoryBandwidth memoryClockRate memoryBusWidth)) = false).
  { intros [s ->]. destruct (Z.eq_dec n 0) as [->|Hnz]; [reflexivity|].
    destruct (gflops_of_normal n Hn Hnz) as (m & e & -> & _). reflexivity. }
  destruct (Z.eq_dec memoryClockRate 0) as [Hcz|Hcz];
    [|destruct (Z.eq_dec memoryBusWidth 0) as [Hwz|Hwz]].
  - rewrite Hz by (apply bandwidth_zero; auto). split; [discriminate|tauto].
  - rewrite Hz by (apply bandwidth_zero; auto). split; [discriminate|tauto].
  - split; [intros _; split; assumption | intros _].
    pose proof (bandwidth_normal _ _ Hc Hw Hcz Hwz) as NB.
    destruct (Z.eq_dec n 0) as [->|Hnz].
    + apply is_zero_finite. eapply ddiv_zero_normal; [exists false; reflexivity | exact NB].
    + eapply normal_is_finite.
      apply (ddiv_normal _ _ _ _ _ _ _ _ (gflops_of_normal n Hn Hnz) NB);
        params.
Qed.

Lemma ridge_point_finite_iff_witness :
  is_finite (calculateBoundaryArithmeticIntensity
               (getTheoreticalGFLOPS 8 0 108 1410) (getMemoryBandwidth 1215 5120)) = true <->
  1215 <> 0 /\ 5120 <> 0.
Proof. apply (ridge_point_finite_iff 8 0 108 1410 1215 5120); int_range. Defined.

Lemma ddiv_self s lo hi (x : double) :
  normal s lo hi x -> d_emin + prec <= lo -> ddiv x x = double_of_Z 1.
Proof.
  intros (m & e & -> & Hd & Hb) Hlo.
  assert (E : ddiv (S754_finite s m e) (S754_finite s m e)
              = ddiv (S754_finite false m e) (S754_finite false m e)).
  { unfold ddiv, SFdiv. rewrite xorb_nilpotent. reflexivity. }
  rewrite E.
  assert (N : normal false (e + prec) (e + prec) (S754_finite false m e)).
  { exists m, e. repeat split; [exact Hd | lia | lia]. }
  assert (N1 : normal false 1 2 (double_of_Z 1)).
  { exists 4503599627370496%positive, (-52). repeat split; unfold prec; lia. }
  apply (ddiv_exact _ _ _ _ _ _ _ _ _ N N N1); try params.
  change (scaled (double_of_Z 1)) with (2 ^ (- d_emin)). ring.
Qed.

(** X10: the ridge-point division is exact when the quotient is a
    double: on integers [k * d] and [d] it returns [k], on equal normal
    arguments it returns 1, and in general it returns the normal double [q]
    whenever [q] times the bandwidth is the throughput. *)
Theorem calculateBoundaryArithmeticIntensity_exact :
  (forall k d : Z,
      0 < k -> 0 < d -> k * d < 2 ^ prec ->
      calculateBoundaryArithmeticIntensity (double_of_Z (k * d)) (double_of_Z d)
      = double_of_Z k) /\
  (forall (x : double) s lo hi,
      normal s lo hi x -> d_emin + prec <= lo ->
      calculateBoundaryArithmeticIntensity x x = double_of_Z 1) /\
  (forall a1 b1 a2 b2 lo hi (peakGFLOPS memoryBandwidthGB q : double),
      normal false a1 b1 peakGFLOPS -> normal false a2 b2 memoryBandwidthGB ->
      normal false lo hi q ->
      d_emin + prec <= a1 -> d_emin + prec <= a2 -> d_emin + prec <= lo ->
      d_emin + prec <= a1 - b2 -> b1 - a2 + 2 <= emax ->
      scaled q * scaled memoryBandwidthGB = scaled peakGFLOPS * 2 ^ (- d_emin) ->
      calculateBoundaryArithmeticIntensity peakGFLOPS memoryBandwidthGB = q).
Proof.
  unfold calculateBoundaryArithmeticIntensity. split; [|split].
  - intros k d Hk Hd Hlt. apply ddiv_integers_exact; [exact Hk | exact Hd | reflexivity | exact Hlt].
  - intros x s lo hi. apply ddiv_self.
  - intros a1 b1 a2 b2 lo hi t b q. apply ddiv_exact.
Qed.

Lemma calculateBoundaryArithmeticIntensity_exact_witness :
  calculateBoundaryArithmeticIntensity (double_of_Z (5 * 8)) (double_of_Z 8) = double_of_Z 5 /\
  calculateBoundaryArithmeticIntensity d_0_33 d_0_33 = double_of_Z 1.
Proof.
  destruct calculateBoundaryArithmeticIntensity_exact as (Hint & Hself & _). split.
  - apply Hint; [lia | lia | vm_compute; reflexivity].
  - apply (Hself d_0_33 false (-1) (-1)).
    + exists 5944751508129055%positive, (-54). repeat split; unfold prec; lia.
    + vm_compute. intros H. discriminate H.
Defined.

(** ** Runs under any behaviour of the runtime *)

Section RunFacts.

Variable cudaGetDeviceCount : cudaError_t * Z.
Variable cudaGetDeviceProperties : Z -> cudaError_t * cudaDeviceProp.
Variable cudaGetErrorString : cudaError_t -> string.
Variable show_int : Z -> string.
Variable show_double : double -> string.

Local Abbreviation device_section := (device_section show_int show_double).
Local Abbreviation sections_from := (sections_from cudaGetDeviceProperties show_int show_double).
Local Abbreviation report_loop :=
  (report_loop cudaGetDeviceProperties cudaGetErrorString show_int show_double).
Local Abbreviation main :=
  (main cudaGetDeviceCount cudaGetDeviceProperties cudaGetErrorString show_int show_double).
Local Abbreviation first_failure := (first_failure cudaGetDeviceProperties).
Local Abbreviation is_diagnostic := (is_diagnostic cudaGetErrorString).

Lemma report_loop_streams (todo : nat) (device deviceCount : Z) (written : list string) :
  (exists rest, stdout (report_loop todo device deviceCount written) = written ++ rest)%list /\
  ((exit_code (report_loop todo device deviceCount written) = 0 /\
    stderr (report_loop todo device deviceCount written) = []) \/
   (exit_code (report_loop todo device deviceCount written) = 1 /\
    is_diagnostic (stderr (report_loop todo device deviceCount written)))).
Proof.
  revert device written. induction todo as [|todo IH]; intros device written.
  - cbn. split; [exists []; symmetry; apply app_nil_r | left; split; reflexivity].
  - cbn [report_loop]. unfold CUDA_CHECK.
    destruct (cudaGetDeviceProperties device) as [error prop].
    destruct (Z.eqb_spec error cudaSuccess) as [E|E].
    + destruct (IH (device + 1)
                  (written ++ device_section device prop ++ separator_after device deviceCount)%list)
        as [[rest Hrest] Hcode].
      split; [|exact Hcode].
      exists (device_section device prop ++ separator_after device deviceCount ++ rest)%list.
      rewrite Hrest, <- !app_assoc. reflexivity.
    + split; [exists []; symmetry; apply app_nil_r|].
      right. split; [reflexivity|]. exists error. split; [exact E|reflexivity].
Qed.

(** X13: whatever the runtime answers (no assumption on the count), the
    output starts with the banner; [std::cerr] receives nothing or the one
    diagnostic of a failed call, and the latter only with exit code 1; exit
    code 1 with nothing on [std::cerr] is exactly the zero-device case; and a
    negative count, which line 68 does not test for, gives the banner alone
    with exit code 0. *)
Theorem main_streams :
  (exists rest, stdout main = banner :: rest) /\
  (stderr main = [] \/ (is_diagnostic (stderr main) /\ exit_code main = 1)) /\
  (exit_code main = 0 -> stderr main = []) /\
  (exit_code main = 1 /\ stderr main = [] <->
   fst cudaGetDeviceCount = cudaSuccess /\ snd cudaGetDeviceCount = 0) /\
  (fst cudaGetDeviceCount = cudaSuccess -> snd cudaGetDeviceCount < 0 ->
   main = {| stdout := [banner]; stderr := []; exit_code := 0 |}).
Proof.
  unfold main, CUDA_CHECK.
  destruct cudaGetDeviceCount as [error deviceCount]. cbn [fst snd].
  assert (Hd : forall lines, is_diagnostic lines -> lines <> []).
  { intros lines (e & _ & ->). discriminate. }
  destruct (Z.eqb_spec error cudaSuccess) as [E|E].
  - destruct (Z.eqb_spec deviceCount 0) as [E0|E0].
    + cbn. split; [eexists; reflexivity|]. split; [left; reflexivity|].
      split; [reflexivity|]. split; [tauto|]. intros _ H. lia.
    + destruct (report_loop_streams (Z.to_nat deviceCount) 0 deviceCount [banner])
        as [[rest Hrest] Hcode].
      split; [exists rest; exact Hrest|].
      split; [destruct Hcode as [[_ H]|[H1 H2]]; [left; exact H | right; split; assumption]|].
      split; [intros H0; destruct Hcode as [[_ H]|[H1 _]]; [exact H | congruence]|].
      split.
      * split; [|intros [_ H]; contradiction].
        intros [H1 H2]. destruct Hcode as [[H _]|[_ H]]; [congruence|].
        apply Hd in H. contradiction.
      * intros _ Hneg. replace (Z.to_nat deviceCount) with 0%nat by lia. reflexivity.
  - cbn. split; [eexists; reflexivity|].
    assert (D : is_diagnostic [("CUDA error: " ++ cudaGetErrorString error ++ nl)%string]).
    { exists error. split; [exact E|reflexivity]. }
    split; [right; split; [exact D|reflexivity]|].
    split; [discriminate|]. split; [|intros; contradiction].
    split; [intros [_ H]; discriminate H | intros [H _]; contradiction].
Qed.

(** The sections of the first [count + 1] devices: those of the first
    [count], then one more with what the loop writes after it. *)
Lemma sections_from_snoc (count : nat) (first deviceCount : Z) :
  sections_from (S count) first deviceCount =
  (sections_from count first deviceCount
   ++ device_section (first + Z.of_nat count)
        (snd (cudaGetDeviceProperties (first + Z.of_nat count)))
   ++ separator_after (first + Z.of_nat count) deviceCount)%list.
Proof.
  revert first. induction count as [|count IH]; intros first.
  - cbn [sections_from]. replace (first + Z.of_nat 0) with first by lia.
    rewrite app_nil_r. reflexivity.
  - change (sections_from (S (S count)) first deviceCount)
      with (device_section first (snd (cudaGetDeviceProperties first))
            ++ separator_after first deviceCount
            ++ sections_from (S count) (first + 1) deviceCount)%list.
    rewrite IH.
    replace (first + 1 + Z.of_nat count) with (first + Z.of_nat (S count)) by lia.
    cbn [sections_from]. rewrite <- !app_assoc. reflexivity.
Qed.

(** X14: when the first failing query is that of device [k >= 1], what
    was written before it ends with the section of device [k - 1] followed
    by a separator: the separator is written after a section (lines
    152-154), before the next query is made. *)
Theorem failure_after_separator (k : Z) :
  fst cudaGetDeviceCount = cudaSuccess -> 1 <= k < snd cudaGetDeviceCount ->
  first_failure k ->
  exit_code main = 1 /\
  stdout main =
    (banner :: sections_from (Z.to_nat (k - 1)) 0 (snd cudaGetDeviceCount)
            ++ device_section (k - 1) (snd (cudaGetDeviceProperties (k - 1)))
            ++ [separator])%list.
Proof.
  intros Hok Hk (_ & Hq & Hfail). unfold main, CUDA_CHECK.
  destruct cudaGetDeviceCount as [error deviceCount]. cbn [fst snd] in *. subst error.
  cbn [Z.eqb cudaSuccess].
  replace (deviceCount =? 0) with false by (symmetry; apply Z.eqb_neq; lia).
  rewrite (report_loop_first_failure cudaGetDeviceProperties cudaGetErrorString
             show_int show_double _ _ _ _ k); [| lia | intros i Hi; apply Hq; lia | exact Hfail].
  cbn [exit_code stdout cuda_check_failure]. split; [reflexivity|].
  replace (Z.to_nat (k - 0)) with (S (Z.to_nat (k - 1))) by lia.
  rewrite sections_from_snoc. unfold separator_after.
  replace (0 + Z.of_nat (Z.to_nat (k - 1))) with (k - 1) by lia.
  replace (k - 1 <? deviceCount - 1) with true by (symmetry; apply Z.ltb_lt; lia).
  reflexivity.
Qed.

End RunFacts.

Lemma failure_after_separator_witness :
  exit_code (main three_devices_count second_query_fails sample_error_string
                  sample_show_int sample_show_double) = 1 /\
  stdout (main three_devices_count second_query_fails sample_error_string
               sample_show_int sample_show_double) =
    (banner :: sections_from second_query_fails sample_show_int sample_show_double
                 (Z.to_nat (1 - 1)) 0 (snd three_devices_count)
            ++ device_section sample_show_int sample_show_double (1 - 1)
                 (snd (second_query_fails (1 - 1)))
            ++ [separator])%list.
Proof.
  apply (failure_after_separator three_devices_count second_query_fails
           sample_error_string sample_show_int sample_show_double 1).
  - reflexivity.
  - simpl. lia.
  - split; [lia|]. split; [|discriminate].
    intros i Hi. assert (i = 0) by lia. subst i. reflexivity.
Defined.

(** The loop reads the properties of a device only when the queries of all
    earlier devices succeeded. *)
Lemma report_loop_reads
      (properties1 properties2 : Z -> cudaError_t * cudaDeviceProp)
      (cudaGetErrorString : cudaError_t -> string)
      (show_int : Z -> string) (show_double : double -> string)
      (todo : nat) (device deviceCount : Z) (written : list string) :
  (forall i, device <= i < device + Z.of_nat todo ->
             (forall j, device <= j < i -> fst (properties1 j) = cudaSuccess) ->
             properties1 i = properties2 i) ->
  report_loop properties1 cudaGetErrorString show_int show_double
              todo device deviceCount written =
  report_loop properties2 cudaGetErrorString show_int show_double
              todo device deviceCount written.
Proof.
  revert device written. induction todo as [|todo IH]; intros device written H.
  - reflexivity.
  - cbn [report_loop].
    rewrite <- (H device ltac:(lia) ltac:(intros j Hj; lia)).
    destruct (properties1 device) as [error prop] eqn:E. unfold CUDA_CHECK.
    destruct (Z.eqb_spec error cudaSuccess) as [Hs|Hf]; [|reflexivity].
    apply IH. intros i Hi Hbefore. apply H; [lia|].
    intros j Hj. destruct (Z.eq_dec j device) as [->|Hne].
    + rewrite E. exact Hs.
    + apply Hbefore. lia.
Qed.

(** X15: the run depends on the property query of a device only if the
    count query succeeded, the device index is below the count and the
    queries of all earlier devices succeeded: two runtimes that agree on
    those queries give the same run. *)
Theorem main_reads_only_reached_devices
        (cudaGetDeviceCount : cudaError_t * Z)
        (properties1 properties2 : Z -> cudaError_t * cudaDeviceProp)
        (cudaGetErrorString : cudaError_t -> string)
        (show_int : Z -> string) (show_double : double -> string) :
  (fst cudaGetDeviceCount = cudaSuccess ->
   forall i, 0 <= i < snd cudaGetDeviceCount ->
             (forall j, 0 <= j < i -> fst (properties1 j) = cudaSuccess) ->
             properties1 i = properties2 i) ->
  main cudaGetDeviceCount properties1 cudaGetErrorString show_int show_double =
  main cudaGetDeviceCount properties2 cudaGetErrorString show_int show_double.
Proof.
  intros H. unfold main, CUDA_CHECK.
  destruct cudaGetDeviceCount as [error deviceCount]. cbn [fst snd] in H.
  destruct (Z.eqb_spec error cudaSuccess) as [Hs|Hf]; [|reflexivity].
  destruct (deviceCount =? 0); [reflexivity|].
  apply report_loop_reads. intros i Hi. apply (H Hs). lia.
Qed.

Lemma main_reads_only_reached_devices_witness :
  main two_devices_count always_succeeds sample_error_string
       sample_show_int sample_show_double =
  main two_devices_count answers_two_devices sample_error_string
       sample_show_int sample_show_double.
Proof.
  apply main_reads_only_reached_devices.
  intros _ i Hi _. unfold answers_two_devices.
  replace (i <? 2) with true by (symmetry; apply Z.ltb_lt; simpl in Hi; lia).
  reflexivity.
Defined.
